(** * domain-hunter: a shallow embedding of keywords.py and main.py

    The development follows the two core modules of the repository:
    - [keywords.py]: name normalisation, variation generation, the corpus
      and the day-of-month batch rotation;
    - [main.py]: the RDAP + DNS availability check, domain synthesis and the
      grouping / filtering of check results;
    and, of the two modules around them, what has no page or mail server in
    it: how [data_sources.py] puts the fetched lists together, and which
    groups [mailer.py] lists.

    Conventions of the embedding.
    - A Python [str] is the [string] of its UTF-8 bytes. Where the code
      counts or cuts characters ([len], [[:25]]) the string is ASCII by
      then, so characters and bytes are the same. [str.lower] follows the
      Unicode character database, which is not reproduced: it is the
      operation of a class, [Py.StrLower], of which the development uses
      only what it does to ASCII text.
    - A Python [int] is a [Z]; [//] and [%] are [Z.div] and [Z.modulo], with
      the [ZeroDivisionError] of a zero divisor written out.
    - A Python [set] of strings is a [gset string]; a [dict], whose iteration
      order is its insertion order, is an association list with unique keys.
    - Code that can raise lives in the error monad [result]; code that talks
      to the network lives in [M], which also logs the calls it makes.
    - Console output ([print]) is not modelled. *)

From Stdlib Require Import ZArith Ascii.
From stdpp Require Import base strings list gmap sorting.

Local Open Scope Z_scope.
Set Warnings "-register-all".

(** ** Exceptions and the error monad *)

(** The subclasses of Python's [Exception] the two modules can meet. *)
Inductive exn : Type :=
  | ZeroDivisionError
  | TypeError
  | AttributeError
  | KeyError
  | JSONDecodeError
  | ConnectionError
  | ReadTimeout
  | NXDOMAIN
  | NoAnswer
  | LifetimeTimeout
  | NoNameservers
  | OtherException (name : string).

Inductive result (A : Type) : Type :=
  | Ok (a : A)
  | Raise (e : exn).
Arguments Ok {A} a.
Arguments Raise {A} e.

#[global] Instance result_ret : MRet result := λ A a, Ok a.
#[global] Instance result_bind : MBind result := λ A B f r,
  match r with
  | Ok a => f a
  | Raise e => Raise e
  end.
#[global] Instance result_fmap : FMap result := λ A B f r,
  match r with
  | Ok a => Ok (f a)
  | Raise e => Raise e
  end.

(** ** Python primitives *)

Module Py.

(** [a // b] on ints. *)
Definition floordiv (a b : Z) : result Z :=
  if b =? 0 then Raise ZeroDivisionError else Ok (a / b).

(** [a % b] on ints. *)
Definition mod_ (a b : Z) : result Z :=
  if b =? 0 then Raise ZeroDivisionError else Ok (a mod b).

(** [len(l)] *)
Definition len {A} (l : list A) : Z := Z.of_nat (length l).

(** A slice bound, as [PySlice_AdjustIndices] clamps it for step 1. *)
Definition adjust_index (i n : Z) : Z :=
  if i <? 0 then Z.max (i + n) 0 else Z.min i n.

(** [l[start:stop]] *)
Definition slice {A} (l : list A) (start stop : Z) : list A :=
  let n := len l in
  let lo := adjust_index start n in
  let hi := adjust_index stop n in
  take (Z.to_nat (hi - lo)) (drop (Z.to_nat lo) l).

(** [str.lower] on ASCII text: A-Z become a-z, every other character
    stays. *)
Definition lower_char (c : ascii) : ascii :=
  let n := N_of_ascii c in
  if ((65 <=? n) && (n <=? 90))%N then ascii_of_N (n + 32) else c.

Fixpoint lower_ascii (s : string) : string :=
  match s with
  | EmptyString => EmptyString
  | String c s' => String (lower_char c) (lower_ascii s')
  end.

(** [s.isascii()]: every byte is below 128. *)
Definition is_ascii_char (c : ascii) : bool := (N_of_ascii c <? 128)%N.

Fixpoint is_ascii (s : string) : bool :=
  match s with
  | EmptyString => true
  | String c s' => is_ascii_char c && is_ascii s'
  end.

(** [str.lower] on any text. Outside ASCII Python lowers by the Unicode
    character database: a character may become several, the result may
    depend on the characters around it (the final sigma), and it may be an
    ASCII letter (U+212A, the Kelvin sign, becomes [k]; U+0130 becomes [i]
    followed by U+0307). [str_lower] stands for that function on UTF-8
    text; what is known of it here is that on ASCII text it is
    [lower_ascii]. *)
Class StrLower : Type := {
  str_lower : string → string;
  str_lower_ascii (s : string) : is_ascii s = true → str_lower s = lower_ascii s;
}.

(** [s.lower()] *)
Definition lower `{!StrLower} (s : string) : string := str_lower s.

(** [s[:n]] on a string, for [n >= 0]. *)
Fixpoint str_take (n : nat) (s : string) : string :=
  match n, s with
  | S n', String c s' => String c (str_take n' s')
  | _, _ => EmptyString
  end.

(** [s.startswith(p)] *)
Fixpoint startswith (p s : string) : bool :=
  match p, s with
  | EmptyString, _ => true
  | String a p', String b s' => bool_decide (a = b) && startswith p' s'
  | String _ _, EmptyString => false
  end.

(** [p in s] on strings: [p] occurs in [s] as a contiguous substring. *)
Fixpoint str_contains (p s : string) : bool :=
  startswith p s ||
  match s with
  | EmptyString => false
  | String _ s' => str_contains p s'
  end.

End Py.

(** A lowering to run examples with. It lowers ASCII as Python does, and
    the two characters outside ASCII whose lowercase form holds an ASCII
    letter as Python does: U+0130 (bytes 196 176) becomes [i] and U+0307
    (bytes 204 135), U+212A (bytes 226 132 170) becomes [k]. Every other
    character outside ASCII is left in place, which is not what Python does
    with all of them: this is an example of the class, not Python's
    table. *)
Fixpoint lower_sample (s : string) : string :=
  match s with
  | EmptyString => EmptyString
  | String c s1 =>
      match s1 with
      | EmptyString => String (Py.lower_char c) EmptyString
      | String c2 s2 =>
          if bool_decide (c = ascii_of_N 196 ∧ c2 = ascii_of_N 176)
          then String "i" (String (ascii_of_N 204) (String (ascii_of_N 135)
                 (lower_sample s2)))
          else
            match s2 with
            | EmptyString => String (Py.lower_char c) (lower_sample s1)
            | String c3 s3 =>
                if bool_decide (c = ascii_of_N 226 ∧ c2 = ascii_of_N 132 ∧
                                c3 = ascii_of_N 170)
                then String "k" (lower_sample s3)
                else String (Py.lower_char c) (lower_sample s1)
            end
      end
  end.

#[global] Instance lower_sample_StrLower : Py.StrLower.
Proof.
  refine {| Py.str_lower := lower_sample |}.
  intros s. induction s as [|c s1 IH]; [done|].
  intros [Hc Hs1]%andb_true_iff. specialize (IH Hs1).
  assert (c ≠ ascii_of_N 196 ∧ c ≠ ascii_of_N 226) as [H196 H226]
    by (split; intros ->; discriminate Hc).
  destruct s1 as [|c2 [|c3 s3]]; [done| |].
  - cbn [lower_sample]. rewrite bool_decide_eq_false_2 by (by intros [? _]).
    cbn [lower_sample] in IH. by rewrite IH.
  - change (Py.lower_ascii (String c ?t))
      with (String (Py.lower_char c) (Py.lower_ascii t)).
    rewrite <- IH. cbn [lower_sample].
    rewrite bool_decide_eq_false_2 by (by intros [? _]).
    by rewrite bool_decide_eq_false_2 by (by intros [? _]).
Defined.

(** ** keywords.py *)

Section KeywordsPy.

Context {unicode : Py.StrLower}.

Definition AFFIXES : list string := ["ai"; "labs"; "cloud"; "tech"].

(** The character class [[a-z0-9]]. *)
Definition in_a_z_0_9 (c : ascii) : bool :=
  let n := N_of_ascii c in
  (((97 <=? n) && (n <=? 122)) || ((48 <=? n) && (n <=? 57)))%N.

(** [re.sub(r'[^a-z0-9]', '', s)] *)
Fixpoint re_sub_non_a_z_0_9 (s : string) : string :=
  match s with
  | EmptyString => EmptyString
  | String c s' =>
      if in_a_z_0_9 c then String c (re_sub_non_a_z_0_9 s')
      else re_sub_non_a_z_0_9 s'
  end.

Definition normalize_name (name : string) : string :=
  Py.str_take 25 (re_sub_non_a_z_0_9 (Py.lower name)).

Definition is_valid_name (name : string) : bool :=
  let n := Z.of_nat (String.length name) in
  (3 <=? n) && (n <=? 25).

(** One turn of either [for affix in AFFIXES] loop: [candidate] is added to
    the set when it is short enough. *)
Definition add_if_short (variations : gset string) (candidate : string)
  : gset string :=
  if Z.of_nat (String.length candidate) <=? 25
  then {[candidate]} ∪ variations
  else variations.

Definition generate_variations (base_name : string) : list string :=
  let clean_name := normalize_name base_name in
  if negb (is_valid_name clean_name) then []
  else
    let variations : gset string := {[clean_name]} in
    let variations :=
      foldl (λ vs affix, add_if_short vs (clean_name +:+ affix))
            variations AFFIXES in
    let variations :=
      foldl (λ vs affix, add_if_short vs (affix +:+ clean_name))
            variations AFFIXES in
    elements variations.

(** [get_todays_batch], with the corpus that [process_all_keywords] returns
    and the day of month that [datetime.now().day] returns as arguments. *)
Definition get_todays_batch (batch_size : Z) (all_keywords : list string)
    (day_of_month : Z) : result (list string) :=
  total_batches ← Py.floordiv (Py.len all_keywords + batch_size - 1) batch_size;
  current_batch ← Py.mod_ (day_of_month - 1) total_batches;
  let start_index := current_batch * batch_size in
  let end_index := Z.min (start_index + batch_size) (Py.len all_keywords) in
  mret (Py.slice all_keywords start_index end_index).

End KeywordsPy.

(** ** JSON values, as [response.json()] hands them to Python *)

Inductive json : Type :=
  | JNull
  | JBool (b : bool)
  | JNumber (literal : string)
  | JStr (s : string)
  | JList (items : list json)
  | JDict (members : list (string * json)).

(** A [dict] with string keys in insertion order; keys are unique. *)
Module Dict.

Fixpoint get {V} (k : string) (d : list (string * V)) : option V :=
  match d with
  | [] => None
  | (k', v) :: d' => if bool_decide (k' = k) then Some v else get k d'
  end.

(** [k in d] *)
Definition contains {V} (k : string) (d : list (string * V)) : bool :=
  match get k d with Some _ => true | None => false end.

(** [d[k] = v]: an existing key keeps its place, a new key goes last. *)
Fixpoint set {V} (k : string) (v : V) (d : list (string * V))
  : list (string * V) :=
  match d with
  | [] => [(k, v)]
  | (k', v') :: d' =>
      if bool_decide (k' = k) then (k', v) :: d' else (k', v') :: set k v d'
  end.

(** An in-place update of the value stored under [k], as in
    [d[k].append(x)]. *)
Fixpoint alter {V} (f : V → V) (k : string) (d : list (string * V))
  : list (string * V) :=
  match d with
  | [] => []
  | (k', v') :: d' =>
      if bool_decide (k' = k) then (k', f v') :: d'
      else (k', v') :: alter f k d'
  end.

Definition keys {V} (d : list (string * V)) : list string := d.*1.

End Dict.

Module PyJson.

(** [k in data] for a string [k]. *)
Definition contains (k : string) (data : json) : result bool :=
  match data with
  | JDict d => Ok (Dict.contains k d)
  | JList l =>
      Ok (existsb (λ x, match x with
                        | JStr s => bool_decide (s = k)
                        | _ => false
                        end) l)
  | JStr s => Ok (Py.str_contains k s)
  | JNull | JBool _ | JNumber _ => Raise TypeError
  end.

(** [data[k]] for a string [k]. *)
Definition getitem (data : json) (k : string) : result json :=
  match data with
  | JDict d =>
      match Dict.get k d with
      | Some v => Ok v
      | None => Raise KeyError
      end
  | _ => Raise TypeError
  end.

(** [isinstance(x, list)] *)
Definition is_list (x : json) : bool :=
  match x with JList _ => true | _ => false end.

(** [s.lower()]: only a [str] has the method. *)
Definition lower `{!Py.StrLower} (s : json) : result string :=
  match s with
  | JStr t => Ok (Py.lower t)
  | _ => Raise AttributeError
  end.

End PyJson.

(** ** The network, and the monad of code that uses it *)

Section MainPy.

Context {unicode : Py.StrLower}.

Record response : Type := Response {
  status_code : Z;
  (** what [response.json()] returns, or the exception it raises *)
  json_body : result json;
}.

Record world : Type := World {
  (** [requests.get(url, headers=..., timeout=10)] *)
  requests_get : string → result response;
  (** [dns.resolver.Resolver()] then [resolver.resolve(domain, 'NS')]: the
      NS records of the answer, which is truthy when it has any *)
  resolver_resolve : string → result (list string);
}.

Inductive event : Type :=
  | HttpGet (url : string)
  | DnsResolve (domain : string)
  | Sleep (ms : Z).

Definition M (A : Type) : Type := list event → result A * list event.

#[global] Instance M_ret : MRet M := λ A a log, (Ok a, log).
#[global] Instance M_bind : MBind M := λ A B f m log,
  match m log with
  | (Ok a, log') => f a log'
  | (Raise e, log') => (Raise e, log')
  end.

Definition lift {A} (r : result A) : M A := λ log, (r, log).

Definition emit (ev : event) : M unit := λ log, (Ok (), log ++ [ev]).

(** [try: body / except Exception as e: handler e] *)
Definition try_except {A} (body : M A) (handler : exn → M A) : M A :=
  λ log,
    match body log with
    | (Ok a, log') => (Ok a, log')
    | (Raise e, log') => handler e log'
    end.

Definition run {A} (m : M A) : result A * list event := m [].

Definition http_get (w : world) (url : string) : M response :=
  emit (HttpGet url);; lift (requests_get w url).

Definition dns_resolve_ns (w : world) (domain : string) : M (list string) :=
  emit (DnsResolve domain);; lift (resolver_resolve w domain).

Definition time_sleep_ms (ms : Z) : M unit := emit (Sleep ms).

(** ** main.py *)

Definition TLDS : list string := [".com"; ".app"; ".ai"; ".so"].
Definition CONCURRENCY : Z := 2.
Definition DELAY_MS : Z := 1200.

Definition STATUS_AVAILABLE : string := "AVAILABLE".
Definition STATUS_REGISTERED : string := "REGISTERED".
Definition STATUS_POSSIBLE_AVAILABLE : string := "POSSIBLE_AVAILABLE".

(** The generator under [any(...)] in [check_rdap]: it stops at the first
    token that matches and raises at the first token without [lower]. *)
Fixpoint any_active (tokens : list json) : result bool :=
  match tokens with
  | [] => Ok false
  | s :: rest =>
      low ← PyJson.lower s;
      if Py.str_contains "active" low || Py.str_contains "ok" low
      then Ok true
      else any_active rest
  end.

(** The body of the [if response.status_code == 200:] branch. *)
Definition rdap_found (response : response) : result (option string) :=
  data ← json_body response;
  has_status ← PyJson.contains "status" data;
  status_is_list ←
    (if (has_status : bool)
     then PyJson.is_list <$> PyJson.getitem data "status"
     else Ok false);
  has_active ←
    (if (status_is_list : bool)
     then tokens ← PyJson.getitem data "status";
          match tokens with JList l => any_active l | _ => Ok false end
     else Ok false);
  if (has_active : bool) then mret (Some STATUS_REGISTERED)
  else
    has_entities ← PyJson.contains "entities" data;
    has_records ←
      (if (has_entities : bool) then Ok true else PyJson.contains "nameservers" data);
    mret (if (has_records : bool) then Some STATUS_REGISTERED else None).

Definition check_rdap (w : world) (domain : string) : M (option string) :=
  try_except
    (response ← http_get w ("https://rdap.org/domain/" +:+ domain);
     if status_code response =? 404 then mret (Some STATUS_AVAILABLE)
     else if status_code response =? 200 then lift (rdap_found response)
     else mret None)
    (λ _, mret None).

Definition check_dns (w : world) (domain : string) : M (option string) :=
  try_except
    (nameservers ← dns_resolve_ns w domain;
     mret (Some (if bool_decide (nameservers ≠ [])
                 then STATUS_REGISTERED else STATUS_AVAILABLE)))
    (λ e, match e with
          | NXDOMAIN | NoAnswer => mret (Some STATUS_AVAILABLE)
          | _ => mret None
          end).

(** The dict [check_domain] returns. *)
Record domain_status : Type := DomainStatus {
  ds_domain : string;
  ds_status : string;
}.

Definition check_domain (w : world) (domain : string) : M domain_status :=
  status ← check_rdap w domain;
  status ← (match status with
            | None => check_dns w domain
            | Some _ => mret status
            end);
  let status := match status with
                | None => STATUS_POSSIBLE_AVAILABLE
                | Some s => s
                end in
  time_sleep_ms DELAY_MS;;
  mret {| ds_domain := domain; ds_status := status |}.

(** An item of [generate_domains]. *)
Record candidate : Type := Candidate {
  c_base : string;
  c_domain : string;
  c_tld : string;
}.

Definition generate_domains (keywords : list string) : list candidate :=
  keyword ← keywords;
  tld ← TLDS;
  [ {| c_base := keyword; c_domain := keyword +:+ tld; c_tld := tld |} ].

(** A result once [process_domains_sequential] has set its ['base']. *)
Record check_result : Type := CheckResult {
  domain : string;
  status : string;
  base : string;
}.

#[global] Instance check_result_eq_dec : EqDecision check_result.
Proof. solve_decision. Defined.

(** [grouped[base].append(result)] follows the test that puts [base] into
    [grouped], so its lookup finds the key. *)
Definition group_step (grouped : list (string * list check_result))
    (result : check_result) : list (string * list check_result) :=
  let base := base result in
  let grouped :=
    if negb (Dict.contains base grouped) then Dict.set base [] grouped
    else grouped in
  Dict.alter (λ rs, rs ++ [result]) base grouped.

Definition group_by_base (results : list check_result)
  : list (string * list check_result) :=
  foldl group_step [] results.

Definition has_non_registered (results : list check_result) : bool :=
  existsb (λ r, bool_decide (status r ≠ STATUS_REGISTERED)) results.

Definition filter_interesting_groups
    (grouped : list (string * list check_result))
  : list (string * list check_result) :=
  foldl (λ interesting '(base, results),
           if has_non_registered results
           then Dict.set base results interesting
           else interesting)
        [] grouped.

Fixpoint process_loop (w : world) (domain_list : list candidate)
    (results : list check_result) : M (list check_result) :=
  match domain_list with
  | [] => mret results
  | item :: rest =>
      r ← check_domain w (c_domain item);
      let r' := {| domain := ds_domain r; status := ds_status r;
                   base := c_base item |} in
      process_loop w rest (results ++ [r'])
  end.

Definition process_domains_sequential (w : world)
    (domain_list : list candidate) : M (list check_result) :=
  process_loop w domain_list [].

(** [sum(1 for r in results if r['status'] == s)] *)
Definition count_status (s : string) (results : list check_result) : Z :=
  Py.len (filter (λ r, status r = s) results).

(** What [main] has in hand when it turns to the CSV file and the mail. *)
Record summary : Type := Summary {
  sm_results : list check_result;
  sm_interesting : list (string * list check_result);
  sm_total_available : Z;
  sm_total_possible : Z;
  sm_total_registered : Z;
}.

Inductive main_outcome : Type :=
  | NoKeywordsToProcess
  | Checked (s : summary).

(** [main] down to the summary; writing [results.csv] and sending the mail
    belong to the reporting side and are left out. *)
Definition main (w : world) (all_keywords : list string) (day_of_month : Z)
  : M main_outcome :=
  keywords ← lift (get_todays_batch 200 all_keywords day_of_month);
  if Py.len keywords =? 0 then mret NoKeywordsToProcess
  else
    let domain_list := generate_domains keywords in
    results ← process_domains_sequential w domain_list;
    let grouped := group_by_base results in
    let interesting := filter_interesting_groups grouped in
    mret (Checked {|
      sm_results := results;
      sm_interesting := interesting;
      sm_total_available := count_status STATUS_AVAILABLE results;
      sm_total_possible := count_status STATUS_POSSIBLE_AVAILABLE results;
      sm_total_registered := count_status STATUS_REGISTERED results;
    |}).

(** ** Vocabulary of the statements

    Notions the properties below are stated with. They are written
    independently of the functions above, as the reference against which
    those functions are judged. *)

Definition chars : string → list ascii := String.list_ascii_of_string.

(** The characters a normalised name may hold. *)
Definition LOWER_ALNUM : list ascii :=
  chars "abcdefghijklmnopqrstuvwxyz0123456789".


(** [p] occurs somewhere inside [s]. *)
Definition is_substring (p s : string) : Prop :=
  ∃ pre post, s = pre +:+ p +:+ post.

(** The URL [check_rdap] asks for. *)
Definition rdap_url (domain : string) : string :=
  "https://rdap.org/domain/" +:+ domain.

(** The tokens of the ['status'] member of an RDAP object, when that member
    is a list. *)
Definition status_tokens (members : list (string * json)) : list json :=
  match Dict.get "status" members with
  | Some (JList tokens) => tokens
  | _ => []
  end.

(** The object has a member named [k]. *)
Definition has_member (k : string) (members : list (string * json)) : Prop :=
  ∃ v, (k, v) ∈ members.

(** No lookup of NS records was made. *)
Definition no_dns_call (log : list event) : Prop :=
  ∀ d, DnsResolve d ∉ log.

(** The distinct elements of [l], each at the place of its first
    occurrence. *)
Fixpoint first_seen (l : list string) : list string :=
  match l with
  | [] => []
  | x :: l' => x :: filter (λ y, y ≠ x) (first_seen l')
  end.

(** The results of base [b], in the order they have in [results]. *)
Definition results_of (b : string) (results : list check_result)
  : list check_result :=
  filter (λ r, base r = b) results.

(** Some result of base [b] is not REGISTERED. *)
Definition interesting (results : list check_result) (b : string) : Prop :=
  Exists (λ r, base r = b ∧ status r ≠ STATUS_REGISTERED) results.

(** The dict that maps every key of [keys] to [g] of that key. *)
Definition tabulate {V} (g : string → V) (keys : list string)
  : list (string * V) :=
  (λ k, (k, g k)) <$> keys.

#[global] Instance interesting_dec results b : Decision (interesting results b).
Proof. unfold interesting. apply _. Defined.

(** What [check_rdap] returns, as a function of what [requests.get] did. *)
Definition rdap_verdict (got : result response) : option string :=
  match got with
  | Raise _ => None
  | Ok r =>
      if status_code r =? 404 then Some STATUS_AVAILABLE
      else if status_code r =? 200
           then match rdap_found r with Ok v => v | Raise _ => None end
           else None
  end.

(** What [check_dns] returns, as a function of what [resolver.resolve] did. *)
Definition dns_verdict (got : result (list string)) : option string :=
  match got with
  | Ok nameservers =>
      Some (if bool_decide (nameservers ≠ [])
            then STATUS_REGISTERED else STATUS_AVAILABLE)
  | Raise NXDOMAIN | Raise NoAnswer => Some STATUS_AVAILABLE
  | Raise _ => None
  end.

(** ** keywords.py: the corpus *)

(** The order of Python on [str]: character code by character code, a
    proper prefix before the longer string. *)
Definition str_le (a b : string) : Prop := String.leb a b = true.

Definition str_lt (a b : string) : Prop := String.ltb a b = true.

#[global] Instance str_le_dec a b : Decision (str_le a b).
Proof. unfold str_le. apply _. Defined.

#[global] Instance str_lt_dec a b : Decision (str_lt a b).
Proof. unfold str_lt. apply _. Defined.

(** [sorted(l)] on a list of strings. *)
Definition sorted (l : list string) : list string := merge_sort str_le l.

(** [process_all_keywords], with the list that [fetch_all_sources()]
    returns as argument. The order in which Python walks a [set] is not
    fixed; the result, a sorted list made from a set, does not depend on
    it. *)
Definition process_all_keywords (all_names : list string) : list string :=
  let unique_names := elements (list_to_set (C := gset string) all_names) in
  let normalized_names := normalize_name <$> unique_names in
  let normalized_names :=
    filter (λ name, is_valid_name name = true) normalized_names in
  let unique_normalized :=
    elements (list_to_set (C := gset string) normalized_names) in
  let all_variations : gset string :=
    foldl (λ all_variations name,
             all_variations ∪ list_to_set (generate_variations name))
          ∅ unique_normalized in
  sorted (elements all_variations).

(** ** data_sources.py *)

(** What the six [fetch_*] functions return. Each of them catches every
    exception of its request and of the parsing of the page, and returns
    [[]] then: each hands [fetch_all_sources] a list of names. *)
Record fetched : Type := Fetched {
  fetch_fortune_global_500 : list string;
  fetch_fortune_us_500 : list string;
  fetch_sp500 : list string;
  fetch_unicorns : list string;
  fetch_yc_companies : list string;
  fetch_github_trending : list string;
}.

Definition get_custom_buzzwords : list string :=
  ["Optimus"; "FSD"; "Grok"; "Sora"; "Claude"; "Neuralink"; "xAI"; "Starlink"].

Definition fetch_all_sources (web : fetched) : list string :=
  let fortune_global := fetch_fortune_global_500 web in
  let fortune_us := fetch_fortune_us_500 web in
  let sp500 := fetch_sp500 web in
  let unicorns := fetch_unicorns web in
  let yc_companies := fetch_yc_companies web in
  let github_trending := fetch_github_trending web in
  let buzzwords := get_custom_buzzwords in
  fortune_global ++ fortune_us ++ sp500 ++ unicorns ++ yc_companies ++
  github_trending ++ buzzwords.

(** ** main.py and mailer.py: the report *)

(** The rows [main] writes to results.csv below the header row. *)
Definition csv_rows (interesting : list (string * list check_result))
  : list (list string) :=
  '(base, domain_results) ← interesting;
  result ← domain_results;
  [[base; domain result; status result]].

(** [list(interesting_groups.items())[:30]] in [send_email]. *)
Definition groups_array (interesting_groups : list (string * list check_result))
  : list (string * list check_result) :=
  Py.slice interesting_groups 0 30.

Definition more_count (interesting_groups : list (string * list check_result))
  : Z :=
  if Py.len interesting_groups >? 30 then Py.len interesting_groups - 30
  else 0.

(** ** More vocabulary *)

(** The status [check_domain] arrives at for [domain]. *)
Definition verdict (w : world) (domain : string) : string :=
  match rdap_verdict (requests_get w (rdap_url domain)) with
  | Some s => s
  | None =>
      default STATUS_POSSIBLE_AVAILABLE (dns_verdict (resolver_resolve w domain))
  end.

(** The URLs requested, the domains looked up and the pauses taken, each
    in the order of the log. *)
Definition http_gets (log : list event) : list string :=
  omap (λ ev, match ev with HttpGet url => Some url | _ => None end) log.

Definition dns_lookups (log : list event) : list string :=
  omap (λ ev, match ev with DnsResolve d => Some d | _ => None end) log.

Definition sleeps (log : list event) : list Z :=
  omap (λ ev, match ev with Sleep ms => Some ms | _ => None end) log.

(** The registry stage does not settle [domain]. *)
Definition rdap_inconclusive (w : world) (domain : string) : Prop :=
  rdap_verdict (requests_get w (rdap_url domain)) = None.

#[global] Instance rdap_inconclusive_dec w domain :
  Decision (rdap_inconclusive w domain).
Proof. unfold rdap_inconclusive. apply _. Defined.

(** A name the generator may hand on: 3 to 25 characters of [a-z0-9]. *)
Definition domain_safe (name : string) : Prop :=
  (3 ≤ String.length name ≤ 25)%nat ∧ Forall (λ c, c ∈ LOWER_ALNUM) (chars name).

(** The calls [check_domain] makes for [domain], in order. *)
Definition calls (w : world) (domain : string) : list event :=
  if decide (rdap_inconclusive w domain)
  then [HttpGet (rdap_url domain); DnsResolve domain; Sleep DELAY_MS]
  else [HttpGet (rdap_url domain); Sleep DELAY_MS].

(** The result [process_domains_sequential] records for a candidate. *)
Definition result_for (w : world) (item : candidate) : check_result :=
  {| domain := c_domain item; status := verdict w (c_domain item);
     base := c_base item |}.

(** One of the three statuses. *)
Definition is_status (s : string) : Prop :=
  s = STATUS_AVAILABLE ∨ s = STATUS_REGISTERED ∨ s = STATUS_POSSIBLE_AVAILABLE.

(** The row of results.csv for a result. *)
Definition csv_row (r : check_result) : list string :=
  [base r; domain r; status r].

End MainPy.

(** * Properties of keywords.py *)

Section Normalizer.

Context {unicode : Py.StrLower}.

Ltac by_cases_on_char c :=
  destruct c as [[] [] [] [] [] [] [] []]; vm_compute; reflexivity.

Lemma in_a_z_0_9_decides (c : ascii) :
  in_a_z_0_9 c = bool_decide (c ∈ LOWER_ALNUM).
Proof. by_cases_on_char c. Qed.


(** On ASCII text [str.lower] is [lower_ascii]. *)
Lemma lower_on_ascii (s : string) :
  Py.is_ascii s = true → Py.lower s = Py.lower_ascii s.
Proof. apply Py.str_lower_ascii. Qed.

Lemma re_sub_charset (s : string) (c : ascii) :
  c ∈ chars (re_sub_non_a_z_0_9 s) → c ∈ LOWER_ALNUM.
Proof.
  induction s as [|a s IH]; cbn.
  - by intros ?%elem_of_nil.
  - destruct (in_a_z_0_9 a) eqn:Ha; [|exact IH].
    cbn. intros [->|Hc]%elem_of_cons; [|by apply IH].
    rewrite in_a_z_0_9_decides in Ha. by apply bool_decide_eq_true in Ha.
Qed.

Lemma str_take_chars (n : nat) (s : string) (c : ascii) :
  c ∈ chars (Py.str_take n s) → c ∈ chars s.
Proof.
  revert s; induction n as [|n IH]; intros [|a s]; cbn;
    try by intros ?%elem_of_nil.
  intros [->|Hc]%elem_of_cons; [left | right; by apply IH].
Qed.

Lemma str_take_length (n : nat) (s : string) :
  (String.length (Py.str_take n s) ≤ n)%nat.
Proof.
  revert s; induction n as [|n IH]; intros [|a s]; cbn; try lia.
  specialize (IH s). lia.
Qed.




Lemma is_valid_name_iff (n : string) :
  is_valid_name n = true ↔ (3 ≤ String.length n ≤ 25)%nat.
Proof. unfold is_valid_name. cbn zeta. rewrite andb_true_iff. lia. Qed.

(** [normalize_name] on ASCII text, where it can be run. *)
Lemma normalize_name_on_ascii (name : string) :
  Py.is_ascii name = true →
  normalize_name name =
  Py.str_take 25 (re_sub_non_a_z_0_9 (Py.lower_ascii name)).
Proof. intros Hascii. unfold normalize_name. by rewrite lower_on_ascii. Qed.


End Normalizer.


(** With [lower_sample], three times U+0130, a letter from outside ASCII,
    normalise to ["iii"], as they do in Python. *)
Lemma normalize_name_dotted_capital_i :
  normalize_name "İİİ" = "iii".
Proof. reflexivity. Qed.

Section VariationGenerator.

Context {unicode : Py.StrLower}.

Lemma elem_of_add_if_short (vs : gset string) (candidate x : string) :
  x ∈ add_if_short vs candidate ↔
  x ∈ vs ∨ (x = candidate ∧ (String.length x ≤ 25)%nat).
Proof.
  unfold add_if_short. destruct (Z.leb_spec (Z.of_nat (String.length candidate)) 25).
  - rewrite elem_of_union, elem_of_singleton. split.
    + intros [->|?]; [right; split; [done|lia] | by left].
    + intros [?|[-> _]]; [by right | by left].
  - split; [by left|]. intros [?|[-> ?]]; [done | lia].
Qed.

(** Membership after one of the [for affix in ...] loops. *)
Lemma elem_of_affix_loop (f : string → string) (affixes : list string)
    (vs : gset string) (x : string) :
  x ∈ foldl (λ vs affix, add_if_short vs (f affix)) vs affixes ↔
  x ∈ vs ∨ ∃ a, a ∈ affixes ∧ x = f a ∧ (String.length x ≤ 25)%nat.
Proof.
  revert vs; induction affixes as [|a affixes IH]; intros vs; cbn.
  - split; [by left|]. intros [?|(a & []%elem_of_nil & _)]; done.
  - rewrite IH, elem_of_add_if_short. split.
    + intros [[?|[-> ?]]|(a' & ? & ? & ?)].
      * by left.
      * right. exists a. split; [by left | done].
      * right. exists a'. split; [by right | done].
    + intros [?|(a' & [->|?]%elem_of_cons & ? & ?)].
      * by left; left.
      * by left; right.
      * right. by exists a'.
Qed.

Lemma generate_variations_invalid (base_name : string) :
  is_valid_name (normalize_name base_name) = false →
  generate_variations base_name = [].
Proof. unfold generate_variations. by intros ->. Qed.

Lemma elem_of_generate_variations (base_name x : string) :
  is_valid_name (normalize_name base_name) = true →
  x ∈ generate_variations base_name ↔
  x = normalize_name base_name ∨
  ∃ a, a ∈ AFFIXES ∧
       (x = normalize_name base_name +:+ a ∨ x = a +:+ normalize_name base_name) ∧
       (String.length x ≤ 25)%nat.
Proof.
  unfold generate_variations. intros ->. cbn [negb].
  rewrite elem_of_elements, !elem_of_affix_loop, elem_of_singleton.
  split.
  - intros [[?|(a & ? & ? & ?)]|(a & ? & ? & ?)]; [by left|right; exists a..];
      eauto.
  - intros [?|(a & ? & [?|?] & ?)]; [by left; left | left; right | right];
      exists a; eauto.
Qed.

Lemma generate_variations_NoDup (base_name : string) :
  NoDup (generate_variations base_name).
Proof.
  unfold generate_variations. case (negb _); [constructor | apply NoDup_elements].
Qed.

(** C8. For an already normalised [base]: when [base] is not a valid name
    the result is empty; otherwise the result has no duplicates and holds
    exactly [base] and, for each of the affixes ai, labs, cloud and tech,
    [base + affix] and [affix + base] when their length is at most 25.
    For ["acme"] that is the nine listed names, for [""] nothing. *)
Theorem generate_variations_spec (base : string) :
  normalize_name base = base →
  (is_valid_name base = false → generate_variations base = []) ∧
  (is_valid_name base = true →
     NoDup (generate_variations base) ∧
     ∀ x, x ∈ generate_variations base ↔
          x = base ∨
          ∃ a, a ∈ ["ai"; "labs"; "cloud"; "tech"] ∧
               (x = base +:+ a ∨ x = a +:+ base) ∧
               (String.length x ≤ 25)%nat) ∧
  generate_variations "acme" ≡ₚ
    ["acme"; "acmeai"; "acmelabs"; "acmecloud"; "acmetech";
     "aiacme"; "labsacme"; "cloudacme"; "techacme"] ∧
  generate_variations "" = [].
Proof.
  intros Hnorm. repeat match goal with |- _ ∧ _ => split end.
  - intros Hinv. apply generate_variations_invalid. by rewrite Hnorm.
  - intros Hvalid. split; [apply generate_variations_NoDup|].
    intros x. rewrite (elem_of_generate_variations base x), Hnorm; [done|].
    by rewrite Hnorm.
  - unfold generate_variations. rewrite (normalize_name_on_ascii "acme") by done.
    apply (bool_decide_unpack _). by vm_compute.
  - unfold generate_variations. by rewrite (normalize_name_on_ascii "").
Qed.

End VariationGenerator.

Lemma generate_variations_spec_witness :
  NoDup (generate_variations "acme") ∧
  ("techacme" ∈ generate_variations "acme") ∧
  ("acmeacme" ∉ generate_variations "acme").
Proof.
  destruct (generate_variations_spec "acme") as (_ & Hvalid & _);
    [reflexivity|].
  destruct (Hvalid eq_refl) as [Hnodup Hmem]. split; [done|]. split.
  - apply Hmem. right. exists "tech".
    split; [by apply (bool_decide_unpack _) | split; [by right | cbn; lia]].
  - intros [?|(a & Ha & Hx & _)]%Hmem; [done|].
    repeat (apply elem_of_cons in Ha as [->|Ha]; [by destruct Hx|]).
    by apply elem_of_nil in Ha.
Defined.

Section BatchSelector.

Context {unicode : Py.StrLower}.

(** [(n + b - 1) // b] is the ceiling of [n / b]. *)
Lemma total_batches_is_ceiling (n b : Z) :
  1 ≤ b → (((n + b - 1) / b) - 1) * b < n ≤ ((n + b - 1) / b) * b.
Proof.
  intros Hb.
  pose proof (Z.div_mod (n + b - 1) b ltac:(lia)) as Hdm.
  pose proof (Z.mod_pos_bound (n + b - 1) b ltac:(lia)) as Hr.
  nia.
Qed.

Lemma adjust_index_in_range (i n : Z) : 0 ≤ i ≤ n → Py.adjust_index i n = i.
Proof.
  intros Hi. unfold Py.adjust_index.
  destruct (Z.ltb_spec i 0); lia.
Qed.

Lemma slice_in_range {A} (l : list A) (s e : Z) :
  0 ≤ s ≤ e → e ≤ Py.len l →
  Py.slice l s e = take (Z.to_nat (e - s)) (drop (Z.to_nat s) l).
Proof.
  intros Hs He. unfold Py.slice.
  by rewrite !adjust_index_in_range by lia.
Qed.

Lemma len_pos_of_ne_nil {A} (l : list A) : l ≠ [] → 1 ≤ Py.len l.
Proof. destruct l; [done|]. unfold Py.len. cbn. lia. Qed.

(** The empty corpus: [total_batches] is 0 and the modulo raises. *)
Lemma get_todays_batch_no_keywords (b d : Z) :
  1 ≤ b → get_todays_batch b [] d = Raise ZeroDivisionError.
Proof.
  intros Hb. unfold get_todays_batch, Py.floordiv, Py.mod_.
  destruct (Z.eqb_spec b 0) as [?|_]; [lia|]. cbn.
  replace ((Py.len [] + b - 1) / b) with 0; [done|].
  symmetry. apply Z.div_small. unfold Py.len. cbn. lia.
Qed.

(** What the code computes on a corpus that is not empty. *)
Lemma get_todays_batch_unfold (l : list string) (b d : Z) :
  l ≠ [] → 1 ≤ b →
  let n := Py.len l in
  let k := (n + b - 1) / b in
  let s := ((d - 1) mod k) * b in
  let e := Z.min (s + b) n in
  1 ≤ k ∧ 0 ≤ s < e ∧ e ≤ n ∧ e - s ≤ b ∧
  get_todays_batch b l d =
    Ok (take (Z.to_nat (e - s)) (drop (Z.to_nat s) l)).
Proof.
  intros Hl%len_pos_of_ne_nil Hb n k s e.
  pose proof (total_batches_is_ceiling n b Hb) as Hk. fold k in Hk.
  assert (1 ≤ k) as Hk1 by nia.
  pose proof (Z.mod_pos_bound (d - 1) k ltac:(lia)) as Hc.
  assert (0 ≤ s ∧ s + b ≤ k * b) as [Hs0 Hs1] by (subst s; nia).
  assert (s < n) by lia.
  repeat split; try (subst e; lia).
  unfold get_todays_batch, Py.floordiv, Py.mod_.
  destruct (Z.eqb_spec b 0) as [?|_]; [lia|]. cbn. fold n k.
  destruct (Z.eqb_spec k 0) as [?|_]; [lia|]. cbn. fold s e.
  rewrite slice_in_range; [done| |]; subst e; fold n; lia.
Qed.

Lemma segment_length {A} (l : list A) (s e : Z) :
  0 ≤ s ≤ e → e ≤ Py.len l →
  Py.len (take (Z.to_nat (e - s)) (drop (Z.to_nat s) l)) = e - s.
Proof.
  unfold Py.len. intros Hs He. rewrite length_take, length_drop. lia.
Qed.

Lemma segment_lookup {A} (l : list A) (s e i : Z) :
  0 ≤ s → 0 ≤ i < e - s →
  take (Z.to_nat (e - s)) (drop (Z.to_nat s) l) !! Z.to_nat i =
  l !! Z.to_nat (s + i).
Proof.
  intros Hs Hi. rewrite lookup_take_lt by lia. rewrite lookup_drop.
  f_equal. lia.
Qed.

(** With a batch in hand that is not empty, [main] goes on to the
    lookups. *)
Lemma main_with_batch (w : world) (l batch : list string) (d : Z)
    (log : list event) :
  get_todays_batch 200 l d = Ok batch → Py.len batch ≠ 0 →
  (main w l d log).1 ≠ Ok NoKeywordsToProcess.
Proof.
  intros Heq Hne. unfold main, lift, mbind, M_bind. rewrite Heq.
  destruct (Z.eqb_spec (Py.len batch) 0) as [?|_]; [done|].
  by destruct (process_domains_sequential _ _ _) as [[?|?] ?].
Qed.

(** C6. On a corpus of [N >= 1] keywords, with [b >= 1] and a day [d] of
    1 to 31, let [k] be the ceiling of [N / b], [s = ((d - 1) mod k) * b]
    and [e = min (s + b) N]. The batch returned is the slice [[s, e)] of
    the corpus: it has [e - s] elements and its [i]-th element is element
    [s + i] of the corpus. Another day [d'] with [(d' - 1) mod k] equal to
    [(d - 1) mod k] gives the same batch, and with [N = 1000], [b = 200]
    the days 1, 6 and 31 all give the first 200 keywords. *)
Theorem get_todays_batch_slice (all_keywords : list string) (b d : Z) :
  all_keywords ≠ [] → 1 ≤ b → 1 ≤ d ≤ 31 →
  ∃ k batch,
    (k - 1) * b < Py.len all_keywords ≤ k * b ∧
    get_todays_batch b all_keywords d = Ok batch ∧
    let s := ((d - 1) mod k) * b in
    let e := Z.min (s + b) (Py.len all_keywords) in
    Py.len batch = e - s ∧
    (∀ i, 0 ≤ i < e - s →
          batch !! Z.to_nat i = all_keywords !! Z.to_nat (s + i)) ∧
    (∀ d', 1 ≤ d' ≤ 31 → (d' - 1) mod k = (d - 1) mod k →
           get_todays_batch b all_keywords d' = Ok batch) ∧
    (Py.len all_keywords = 1000 → b = 200 → d ∈ [1; 6; 31] →
     batch = take 200 all_keywords).
Proof.
  intros Hl Hb Hd.
  destruct (get_todays_batch_unfold all_keywords b d Hl Hb)
    as (Hk & Hs & He & Hes & Heq).
  eexists _, _. split; [apply (total_batches_is_ceiling _ b Hb)|].
  split; [exact Heq|]. cbn zeta.
  repeat match goal with |- _ ∧ _ => split end.
  - apply segment_length; lia.
  - intros i Hi. apply segment_lookup; lia.
  - intros d' Hd' Hmod.
    destruct (get_todays_batch_unfold all_keywords b d' Hl Hb)
      as (_ & _ & _ & _ & ->).
    by rewrite Hmod.
  - intros -> -> Hday.
    assert ((d - 1) mod ((1000 + 200 - 1) / 200) = 0) as ->.
    { repeat (apply elem_of_cons in Hday as [->|Hday]; [done|]).
      by apply elem_of_nil in Hday. }
    done.
Qed.

(** C10. On a non-empty corpus, with [b >= 1] and a day of 1 to 31, the
    batch has between 1 and [b] keywords; so [main], which asks for
    batches of 200, never takes its "No keywords to process" exit. *)
Theorem get_todays_batch_nonempty (all_keywords : list string) (b d : Z) :
  all_keywords ≠ [] → 1 ≤ b → 1 ≤ d ≤ 31 →
  (∃ batch, get_todays_batch b all_keywords d = Ok batch ∧
            1 ≤ Py.len batch ≤ b) ∧
  ∀ w log, (main w all_keywords d log).1 ≠ Ok NoKeywordsToProcess.
Proof.
  intros Hl Hb Hd. split.
  - destruct (get_todays_batch_unfold all_keywords b d Hl Hb)
      as (Hk & Hs & He & Hes & Heq).
    eexists. split; [exact Heq|]. rewrite segment_length; lia.
  - intros w log.
    destruct (get_todays_batch_unfold all_keywords 200 d Hl ltac:(lia))
      as (Hk & Hs & He & Hes & Heq).
    apply (main_with_batch _ _ _ _ _ Heq). rewrite segment_length; lia.
Qed.

End BatchSelector.

Lemma get_todays_batch_slice_witness :
  ∃ k batch,
    (k - 1) * 2 < Py.len ["a"; "b"; "c"; "d"; "e"] ≤ k * 2 ∧
    get_todays_batch 2 ["a"; "b"; "c"; "d"; "e"] 6 = Ok batch ∧
    Py.len batch =
      Z.min ((6 - 1) mod k * 2 + 2) (Py.len ["a"; "b"; "c"; "d"; "e"]) -
      (6 - 1) mod k * 2.
Proof.
  destruct (get_todays_batch_slice ["a"; "b"; "c"; "d"; "e"] 2 6)
    as (k & batch & Hk & Hbatch & Hlen & _); [done|lia|lia|].
  by exists k, batch.
Defined.

Lemma get_todays_batch_nonempty_witness :
  ∃ batch, get_todays_batch 2 ["a"; "b"; "c"] 31 = Ok batch ∧
           1 ≤ Py.len batch ≤ 2.
Proof.
  apply (get_todays_batch_nonempty ["a"; "b"; "c"] 2 31); [done|lia|lia].
Defined.

(** * Properties of main.py *)

Section Strings.

Context {unicode : Py.StrLower}.

Lemma app_cons_str (a : ascii) (s t : string) :
  String a s +:+ t = String a (s +:+ t).
Proof. reflexivity. Qed.

Lemma startswith_iff (p s : string) :
  Py.startswith p s = true ↔ ∃ post, s = p +:+ post.
Proof.
  revert s; induction p as [|a p IH]; intros s; cbn.
  - split; [intros _; by exists s | done].
  - destruct s as [|b s].
    + split; [done | intros [post Hpost]; by rewrite app_cons_str in Hpost].
    + rewrite andb_true_iff, bool_decide_eq_true, IH. split.
      * intros [-> [post ->]]. by exists post.
      * intros [post Hpost]. rewrite app_cons_str in Hpost.
        injection Hpost as -> ->. eauto.
Qed.

Lemma str_contains_iff (p s : string) :
  Py.str_contains p s = true ↔ is_substring p s.
Proof.
  unfold is_substring. induction s as [|b s IH]; cbn.
  - rewrite orb_false_r, startswith_iff. split.
    + intros [post Hpost]. by exists "", post.
    + intros ([|c pre] & post & Hpost); [by exists post|].
      by rewrite app_cons_str in Hpost.
  - rewrite orb_true_iff, startswith_iff, IH. split.
    + intros [[post Hpost]|(pre & post & ->)].
      * by exists "", post.
      * by exists (String b pre), post.
    + intros ([|c pre] & post & Hpost).
      * left. by exists post.
      * rewrite app_cons_str in Hpost. injection Hpost as -> ->.
        right. by exists pre, post.
Qed.

End Strings.

Section Resolver.

Context {unicode : Py.StrLower}.

Ltac run_M :=
  unfold mbind, M_bind, mret, M_ret, emit, lift, try_except; cbn.

Lemma rdap_found_values (r : response) (v : option string) :
  rdap_found r = Ok v → v = Some STATUS_REGISTERED ∨ v = None.
Proof.
  unfold rdap_found.
  destruct (json_body r) as [data|]; cbn; [|done].
  destruct (PyJson.contains "status" data) as [has_status|]; cbn; [|done].
  destruct (if has_status then _ else _) as [is_list|]; cbn; [|done].
  destruct (if is_list then _ else _) as [[]|]; cbn; [| |done].
  - intros [= <-]. by left.
  - destruct (PyJson.contains "entities" data) as [has_entities|]; cbn;
      [|done].
    destruct (if has_entities then _ else _) as [[]|]; cbn; [| |done];
      intros [= <-]; auto.
Qed.

Lemma check_rdap_run (w : world) (domain : string) (log : list event) :
  check_rdap w domain log =
  (Ok (rdap_verdict (requests_get w (rdap_url domain))),
   log ++ [HttpGet (rdap_url domain)]).
Proof.
  unfold check_rdap, http_get, rdap_verdict. fold (rdap_url domain). run_M.
  destruct (requests_get w (rdap_url domain)) as [r|e]; cbn; [|done].
  destruct (status_code r =? 404); [done|].
  destruct (status_code r =? 200); [|done].
  by destruct (rdap_found r).
Qed.

Lemma check_dns_run (w : world) (domain : string) (log : list event) :
  check_dns w domain log =
  (Ok (dns_verdict (resolver_resolve w domain)), log ++ [DnsResolve domain]).
Proof.
  unfold check_dns, dns_resolve_ns, dns_verdict. run_M.
  by destruct (resolver_resolve w domain) as [ns|[]].
Qed.

Lemma check_domain_run (w : world) (domain : string) (log : list event) :
  check_domain w domain log =
  match rdap_verdict (requests_get w (rdap_url domain)) with
  | Some s =>
      (Ok {| ds_domain := domain; ds_status := s |},
       log ++ [HttpGet (rdap_url domain); Sleep DELAY_MS])
  | None =>
      (Ok {| ds_domain := domain;
             ds_status := default STATUS_POSSIBLE_AVAILABLE
                            (dns_verdict (resolver_resolve w domain)) |},
       log ++ [HttpGet (rdap_url domain); DnsResolve domain; Sleep DELAY_MS])
  end.
Proof.
  unfold check_domain, time_sleep_ms. run_M. rewrite check_rdap_run.
  destruct (rdap_verdict _) as [s|].
  - by rewrite <- app_assoc.
  - rewrite check_dns_run.
    destruct (dns_verdict _) as [s|]; cbn; by rewrite <- !app_assoc.
Qed.

Lemma dict_get_elem_of {V} (k : string) (d : list (string * V)) (v : V) :
  Dict.get k d = Some v → (k, v) ∈ d.
Proof.
  induction d as [|[k' v'] d IH]; cbn; [done|].
  case_bool_decide as Hk.
  - intros [= ->]. subst k'. by left.
  - intros Hget. right. by apply IH.
Qed.

Lemma dict_contains_iff (k : string) (d : list (string * json)) :
  Dict.contains k d = true ↔ has_member k d.
Proof.
  unfold Dict.contains, has_member. split.
  - destruct (Dict.get k d) as [v|] eqn:Hget; [|done].
    intros _. exists v. by apply dict_get_elem_of.
  - intros [v Hv]. induction d as [|[k' v'] d IH]; cbn.
    + by apply elem_of_nil in Hv.
    + case_bool_decide as Hk; [done|].
      apply elem_of_cons in Hv as [[= -> ->]|Hv]; [done | by apply IH].
Qed.

(** The generator on a list of strings: it never raises. *)
Lemma any_active_strings (tokens : list json) :
  (∀ t, t ∈ tokens → ∃ s, t = JStr s) →
  ∃ b, any_active tokens = Ok b ∧
       (b = true ↔
        ∃ s, JStr s ∈ tokens ∧
             (is_substring "active" (Py.lower s) ∨
              is_substring "ok" (Py.lower s))).
Proof.
  induction tokens as [|t tokens IH]; intros Hstr.
  - exists false. split; [done|]. split; [done|].
    by intros (s & ?%elem_of_nil & _).
  - destruct (Hstr t) as [s ->]; [by left|]. cbn.
    destruct (Py.str_contains "active" (Py.lower s) ||
              Py.str_contains "ok" (Py.lower s)) eqn:Hhit.
    + exists true. split; [done|]. split; [|done]. intros _. exists s.
      split; [by left|].
      apply orb_true_iff in Hhit. by rewrite <- !str_contains_iff.
    + destruct IH as (b & Hb & Hiff); [intros t Ht; apply Hstr; by right|].
      exists b. split; [done|]. rewrite Hiff. split.
      * intros (s' & Hs' & Hsub). exists s'. split; [by right | done].
      * intros (s' & [[= ->]|Hs']%elem_of_cons & Hsub); [|by exists s'].
        rewrite <- !str_contains_iff, <- orb_true_iff in Hsub. congruence.
Qed.

(** The generator stops at a first token of ASCII text that matches. *)
Lemma any_active_ascii_hit (s : string) (rest : list json) :
  Py.is_ascii s = true →
  Py.str_contains "active" (Py.lower_ascii s) ||
    Py.str_contains "ok" (Py.lower_ascii s) = true →
  any_active (JStr s :: rest) = Ok true.
Proof.
  intros Hascii Hhit. cbn [any_active PyJson.lower mbind result_bind].
  by rewrite lower_on_ascii, Hhit.
Qed.

(** [rdap_found] on a body that parses to a JSON object. *)
Lemma rdap_found_object (r : response) (members : list (string * json)) :
  json_body r = Ok (JDict members) →
  rdap_found r =
    (has_active ← any_active (status_tokens members);
     if (has_active : bool) then Ok (Some STATUS_REGISTERED)
     else Ok (if Dict.contains "entities" members ||
                 Dict.contains "nameservers" members
              then Some STATUS_REGISTERED else None)).
Proof.
  intros Hbody. unfold rdap_found, status_tokens. rewrite Hbody. cbn.
  unfold Dict.contains.
  destruct (Dict.get "status" members) as [[| | | |tokens|]|]; cbn;
    by destruct (Dict.get "entities" members);
       destruct (Dict.get "nameservers" members).
Qed.

Lemma rdap_verdict_values (got : result response) (v : string) :
  rdap_verdict got = Some v → v = STATUS_AVAILABLE ∨ v = STATUS_REGISTERED.
Proof.
  unfold rdap_verdict. destruct got as [r|]; [|done].
  destruct (status_code r =? 404); [intros [= <-]; by left|].
  destruct (status_code r =? 200); [|done].
  destruct (rdap_found r) as [o|] eqn:Hfound; [|done].
  intros ->. apply rdap_found_values in Hfound as [[= <-]|?]; [by right|done].
Qed.

Lemma dns_verdict_values (got : result (list string)) (v : string) :
  dns_verdict got = Some v → v = STATUS_AVAILABLE ∨ v = STATUS_REGISTERED.
Proof.
  unfold dns_verdict. destruct got as [ns|[]]; try done.
  - case_bool_decide; intros [= <-]; auto.
  - intros [= <-]; auto.
  - intros [= <-]; auto.
Qed.

(** C1. Whatever the two network calls do (any HTTP status, a body that
    does not parse, any exception of [requests.get], of [response.json] or
    of the resolver), [check_domain] returns normally, for the domain it was
    given, with a status that is one of AVAILABLE, REGISTERED and
    POSSIBLE_AVAILABLE; the three are distinct. *)
Theorem check_domain_never_raises (w : world) (domain : string)
    (log : list event) :
  (∃ st log',
     check_domain w domain log =
       (Ok {| ds_domain := domain; ds_status := st |}, log') ∧
     (st = STATUS_AVAILABLE ∨ st = STATUS_REGISTERED ∨
      st = STATUS_POSSIBLE_AVAILABLE)) ∧
  STATUS_AVAILABLE ≠ STATUS_REGISTERED ∧
  STATUS_AVAILABLE ≠ STATUS_POSSIBLE_AVAILABLE ∧
  STATUS_REGISTERED ≠ STATUS_POSSIBLE_AVAILABLE.
Proof.
  split; [|done]. rewrite check_domain_run.
  destruct (rdap_verdict _) as [s|] eqn:Hrdap.
  - eexists _, _. split; [done|].
    apply rdap_verdict_values in Hrdap as [->| ->]; auto.
  - destruct (dns_verdict _) as [s|] eqn:Hdns; cbn.
    + eexists _, _. split; [done|].
      apply dns_verdict_values in Hdns as [->| ->]; auto.
    + eexists _, _. split; [done|]. auto.
Qed.

Lemma check_rdap_verdict (w : world) (domain : string) :
  (run (check_rdap w domain)).1 =
  Ok (rdap_verdict (requests_get w (rdap_url domain))).
Proof. unfold run. by rewrite check_rdap_run. Qed.

(** C2, amended. The registry stage: HTTP 404 gives AVAILABLE. HTTP 200
    with a body that parses to an object whose status tokens are strings
    gives REGISTERED exactly when some status token, lowercased by
    [str.lower], has "active" or "ok" as a substring, or the object has a
    member named "entities" or "nameservers", and is inconclusive
    otherwise; so the status list ["inactive"] gives REGISTERED. This
    holds whatever [str.lower] does outside ASCII. A body that does not
    parse, any other HTTP status and any exception of the request are
    inconclusive, and an inconclusive registry stage is followed by the
    DNS lookup. *)
Theorem check_rdap_classification (w : world) (domain : string) :
  let verdict := (run (check_rdap w domain)).1 in
  let got := requests_get w (rdap_url domain) in
  (∀ r, got = Ok r → status_code r = 404 →
        verdict = Ok (Some STATUS_AVAILABLE)) ∧
  (∀ r members,
     got = Ok r → status_code r = 200 → json_body r = Ok (JDict members) →
     (∀ t, t ∈ status_tokens members → ∃ s, t = JStr s) →
     (verdict = Ok (Some STATUS_REGISTERED) ↔
        (∃ s, JStr s ∈ status_tokens members ∧
              (is_substring "active" (Py.lower s) ∨
               is_substring "ok" (Py.lower s))) ∨
        has_member "entities" members ∨ has_member "nameservers" members) ∧
     (verdict = Ok (Some STATUS_REGISTERED) ∨ verdict = Ok None)) ∧
  (∀ r, got = Ok r → status_code r = 200 →
        json_body r = Ok (JDict [("status", JList [JStr "inactive"])]) →
        verdict = Ok (Some STATUS_REGISTERED)) ∧
  (∀ r e, got = Ok r → status_code r = 200 → json_body r = Raise e →
          verdict = Ok None) ∧
  (∀ r, got = Ok r → status_code r ≠ 404 → status_code r ≠ 200 →
        verdict = Ok None) ∧
  (∀ e, got = Raise e → verdict = Ok None) ∧
  (verdict = Ok None → DnsResolve domain ∈ (run (check_domain w domain)).2).
Proof.
  cbn zeta. rewrite check_rdap_verdict.
  repeat match goal with |- _ ∧ _ => split end.
  - intros r -> Hcode. cbn. by rewrite Hcode.
  - intros r members -> Hcode Hbody Hstr. cbn. rewrite Hcode. cbn.
    rewrite (rdap_found_object r members Hbody).
    destruct (any_active_strings _ Hstr) as (b & -> & Hb). cbn.
    rewrite <- !dict_contains_iff.
    destruct b; cbn.
    + split; [|by left]. split; [intros _; left; by apply Hb | done].
    + assert (¬ ∃ s, JStr s ∈ status_tokens members ∧
                     (is_substring "active" (Py.lower s) ∨
                      is_substring "ok" (Py.lower s))) as Hno.
      { intros Hex. by apply Hb in Hex. }
      destruct (Dict.contains "entities" members),
               (Dict.contains "nameservers" members); cbn;
        try (split; [split; [intros _; right; auto | done] | by left]).
      split; [|by right]. split; [done|]. by intros [?|[?|?]].
  - intros r -> Hcode Hbody. cbn. rewrite Hcode. cbn.
    rewrite (rdap_found_object r _ Hbody).
    change (status_tokens _) with [JStr "inactive"].
    by rewrite any_active_ascii_hit.
  - intros r e -> Hcode Hbody. cbn. rewrite Hcode. cbn.
    unfold rdap_found. by rewrite Hbody.
  - intros r -> H404 H200. cbn.
    destruct (Z.eqb_spec (status_code r) 404); [done|].
    by destruct (Z.eqb_spec (status_code r) 200).
  - by intros e ->.
  - intros [= Hverdict]. unfold run. rewrite check_domain_run, Hverdict.
    cbn. set_solver.
Qed.

(** C3. When the registry stage is inconclusive the DNS lookup is made and
    decides: one or more NS records give REGISTERED; NXDOMAIN and NoAnswer
    give AVAILABLE; any other exception of the resolver, a timeout among
    them, gives POSSIBLE_AVAILABLE. In particular a registry timeout
    followed by NXDOMAIN gives AVAILABLE, and a registry timeout followed by
    a DNS timeout gives POSSIBLE_AVAILABLE. *)
Theorem dns_fallback_decides (w : world) (domain : string) :
  let final := (run (check_domain w domain)).1 in
  let dns := resolver_resolve w domain in
  let answer st := Ok {| ds_domain := domain; ds_status := st |} in
  ((run (check_rdap w domain)).1 = Ok None →
     DnsResolve domain ∈ (run (check_domain w domain)).2 ∧
     (∀ ns, dns = Ok ns → ns ≠ [] → final = answer STATUS_REGISTERED) ∧
     (∀ e, dns = Raise e → e = NXDOMAIN ∨ e = NoAnswer →
           final = answer STATUS_AVAILABLE) ∧
     (∀ e, dns = Raise e → e ≠ NXDOMAIN → e ≠ NoAnswer →
           final = answer STATUS_POSSIBLE_AVAILABLE)) ∧
  (requests_get w (rdap_url domain) = Raise ReadTimeout →
   dns = Raise NXDOMAIN → final = answer STATUS_AVAILABLE) ∧
  (requests_get w (rdap_url domain) = Raise ReadTimeout →
   dns = Raise LifetimeTimeout → final = answer STATUS_POSSIBLE_AVAILABLE).
Proof.
  cbn zeta. unfold run. rewrite check_rdap_run, check_domain_run.
  cbn [fst]. split; [|split; by intros -> ->].
  intros [= ->]. cbn [fst snd]. split; [set_solver|]. split; [|split].
  - intros ns -> Hns. cbn. by rewrite bool_decide_eq_true_2.
  - intros e -> [-> | ->]; done.
  - intros e -> Hnx Hna. by destruct e.
Qed.

Lemma rdap_only_log (url : string) (ms : Z) (d : string) :
  DnsResolve d ∉ [HttpGet url; Sleep ms].
Proof.
  intros Hd. repeat (apply elem_of_cons in Hd as [?|Hd]; [done|]).
  by apply elem_of_nil in Hd.
Qed.

(** C4. Stage 1 short-circuits stage 2: on HTTP 404 the result is AVAILABLE
    whatever the resolver would do, and on HTTP 200 with the status list
    ["active"] the result is REGISTERED; in both cases no DNS lookup is
    made. *)
Theorem rdap_short_circuits_dns (w : world) (domain : string) (r : response) :
  requests_get w (rdap_url domain) = Ok r →
  let final := run (check_domain w domain) in
  (status_code r = 404 →
     final.1 = Ok {| ds_domain := domain; ds_status := STATUS_AVAILABLE |} ∧
     no_dns_call final.2) ∧
  (∀ members,
     status_code r = 200 → json_body r = Ok (JDict members) →
     Dict.get "status" members = Some (JList [JStr "active"]) →
     final.1 = Ok {| ds_domain := domain; ds_status := STATUS_REGISTERED |} ∧
     no_dns_call final.2).
Proof.
  intros Hget. cbn zeta. unfold run, no_dns_call.
  rewrite check_domain_run, Hget. cbn. split.
  - intros ->. cbn. split; [done|]. apply rdap_only_log.
  - intros members -> Hbody Hstatus. cbn.
    rewrite (rdap_found_object r members Hbody).
    unfold status_tokens. rewrite Hstatus.
    rewrite any_active_ascii_hit by done. cbn. split; [done|].
    apply rdap_only_log.
Qed.

End Resolver.

Lemma check_rdap_classification_witness :
  let members := [("status", JList [JStr "OK"])] in
  let w := {| requests_get := λ _,
                Ok {| status_code := 200; json_body := Ok (JDict members) |};
              resolver_resolve := λ _, Raise NXDOMAIN |} in
  (run (check_rdap w "example.com")).1 = Ok (Some STATUS_REGISTERED).
Proof.
  intros members w.
  destruct (check_rdap_classification w "example.com")
    as (_ & Hobject & _).
  destruct (Hobject _ members eq_refl eq_refl eq_refl) as [Hiff _].
  - intros t [->|[]%elem_of_nil]%elem_of_cons. by eexists.
  - apply Hiff. left. eexists. split; [by left|]. right.
    apply str_contains_iff. reflexivity.
Defined.

(** A response against the token-equality reading of the registry stage:
    with the status list ["inactive"], which holds no token equal (in any
    letter case) to "active" or "ok", and with neither nameservers nor
    entities in the response, the registry stage answers REGISTERED. *)
Lemma check_rdap_inactive_is_registered :
  let members := [("status", JList [JStr "inactive"])] in
  let w := {| requests_get := λ _,
                Ok {| status_code := 200; json_body := Ok (JDict members) |};
              resolver_resolve := λ _, Raise NXDOMAIN |} in
  (run (check_rdap w "example.com")).1 = Ok (Some STATUS_REGISTERED) ∧
  (∀ t, t ∈ status_tokens members →
        ∀ s, t = JStr s → Py.lower s ≠ "active" ∧ Py.lower s ≠ "ok") ∧
  ¬ has_member "entities" members ∧
  ¬ has_member "nameservers" members.
Proof.
  intros members w. split; [reflexivity|]. split.
  - intros t [->|[]%elem_of_nil]%elem_of_cons s [= <-]. by cbn.
  - split; intros [v [[=]|[]%elem_of_nil]%elem_of_cons].
Qed.

Lemma dns_fallback_decides_witness :
  let w := {| requests_get := λ _,
                Ok {| status_code := 503; json_body := Raise JSONDecodeError |};
              resolver_resolve := λ _, Ok ["ns1.example.net"] |} in
  (run (check_domain w "example.com")).1 =
  Ok {| ds_domain := "example.com"; ds_status := STATUS_REGISTERED |}.
Proof.
  intros w.
  destruct (dns_fallback_decides w "example.com") as [Hdns _].
  destruct (Hdns eq_refl) as (_ & Hns & _).
  by apply (Hns ["ns1.example.net"]).
Defined.

Lemma rdap_short_circuits_dns_witness :
  let r := {| status_code := 200;
              json_body := Ok (JDict [("status", JList [JStr "active"])]) |} in
  let w := {| requests_get := λ _, Ok r;
              resolver_resolve := λ _, Raise NXDOMAIN |} in
  (run (check_domain w "example.com")).1 =
    Ok {| ds_domain := "example.com"; ds_status := STATUS_REGISTERED |} ∧
  no_dns_call (run (check_domain w "example.com")).2.
Proof.
  intros r w.
  destruct (rdap_short_circuits_dns w "example.com" r eq_refl) as [_ H200].
  by apply (H200 [("status", JList [JStr "active"])]).
Defined.

Section FirstSeen.

Context {unicode : Py.StrLower}.

Lemma elem_of_first_seen (l : list string) (x : string) :
  x ∈ first_seen l ↔ x ∈ l.
Proof.
  induction l as [|a l IH]; cbn; [done|].
  rewrite !elem_of_cons, list_elem_of_filter, IH.
  destruct (decide (x = a)); intuition congruence.
Qed.

Lemma NoDup_first_seen (l : list string) : NoDup (first_seen l).
Proof.
  induction l as [|a l IH]; cbn; [constructor|].
  apply NoDup_cons. split; [|by apply NoDup_filter].
  rewrite list_elem_of_filter. by intros [? _].
Qed.

Lemma first_seen_snoc (l : list string) (x : string) :
  first_seen (l ++ [x]) =
  if decide (x ∈ l) then first_seen l else first_seen l ++ [x].
Proof.
  induction l as [|a l IH]; cbn; [done|].
  rewrite IH. destruct (decide (x ∈ l)) as [Hin|Hnin].
  - rewrite decide_True; [done | by right].
  - rewrite filter_app. destruct (decide (x = a)) as [->|Hne].
    + rewrite decide_True by (by left).
      rewrite filter_cons_False by (by intros ?). by rewrite app_nil_r.
    + rewrite decide_False by (intros [?|?]%elem_of_cons; done).
      by rewrite filter_cons_True.
Qed.

End FirstSeen.

Section Tabulate.

Context {unicode : Py.StrLower}.

Context {V : Type}.
Implicit Types (g : string → V) (keys : list string).

Lemma get_tabulate g keys (k : string) :
  Dict.get k (tabulate g keys) = if decide (k ∈ keys) then Some (g k) else None.
Proof.
  unfold tabulate. induction keys as [|a keys IH]; cbn; [done|].
  case_bool_decide as Ha.
  - subst a. rewrite decide_True; [done | by left].
  - rewrite IH. destruct (decide (k ∈ keys)).
    + rewrite decide_True; [done | by right].
    + rewrite decide_False; [done|]. intros [?|?]%elem_of_cons; done.
Qed.

Lemma contains_tabulate g keys (k : string) :
  Dict.contains k (tabulate g keys) = bool_decide (k ∈ keys).
Proof.
  unfold Dict.contains. rewrite get_tabulate.
  destruct (decide (k ∈ keys)).
  - by rewrite bool_decide_eq_true_2.
  - by rewrite bool_decide_eq_false_2.
Qed.

Lemma set_fresh (d : list (string * V)) (k : string) (v : V) :
  k ∉ d.*1 → Dict.set k v d = d ++ [(k, v)].
Proof.
  induction d as [|[a w] d IH]; cbn; [done|]. intros Hk.
  rewrite bool_decide_eq_false_2 by (intros ->; apply Hk; by left).
  rewrite IH; [done|]. intros ?. apply Hk. by right.
Qed.

Lemma tabulate_keys g keys : (tabulate g keys).*1 = keys.
Proof.
  unfold tabulate. rewrite <- list_fmap_compose. cbn.
  induction keys; cbn; by f_equal.
Qed.

Lemma tabulate_snoc g keys (k : string) :
  tabulate g (keys ++ [k]) = tabulate g keys ++ [(k, g k)].
Proof. unfold tabulate. by rewrite fmap_app. Qed.

Lemma tabulate_ext g g' keys :
  (∀ k, k ∈ keys → g k = g' k) → tabulate g keys = tabulate g' keys.
Proof.
  intros Hext. unfold tabulate. apply list_fmap_ext.
  intros i k Hk%list_elem_of_lookup_2. by rewrite Hext.
Qed.

Lemma alter_tabulate (f : V → V) g g' keys (b : string) :
  NoDup keys →
  (∀ k, k ≠ b → g' k = g k) → g' b = f (g b) →
  Dict.alter f b (tabulate g keys) = tabulate g' keys.
Proof.
  intros Hnodup Hother Hb.
  induction keys as [|a keys IH]; [done|]. unfold tabulate in *. cbn.
  apply NoDup_cons in Hnodup as [Ha Hnodup]. case_bool_decide as Hab.
  - subst a. rewrite Hb. f_equal. apply tabulate_ext.
    intros k Hk. symmetry. apply Hother. by intros ->.
  - rewrite Hother by done. f_equal. by apply IH.
Qed.

End Tabulate.

Section Aggregator.

Context {unicode : Py.StrLower}.

Implicit Types (results : list check_result) (r : check_result).

Lemma results_of_snoc results r (b : string) :
  results_of b (results ++ [r]) =
  if decide (b = base r) then results_of b results ++ [r]
  else results_of b results.
Proof.
  unfold results_of. rewrite filter_app. destruct (decide (b = base r)).
  - by rewrite filter_cons_True.
  - rewrite filter_cons_False by done. by rewrite app_nil_r.
Qed.

Lemma results_of_unseen results (b : string) :
  b ∉ base <$> results → results_of b results = [].
Proof.
  intros Hb. unfold results_of. induction results as [|r results IH]; [done|].
  rewrite filter_cons_False.
  - apply IH. intros ?. apply Hb. by right.
  - intros <-. apply Hb. by left.
Qed.

(** One more result: its base is entered if new, and the result is put
    last in that base's list. *)
Lemma group_step_tabulate results r :
  group_step
    (tabulate (λ b, results_of b results) (first_seen (base <$> results))) r =
  tabulate (λ b, results_of b (results ++ [r]))
           (first_seen (base <$> results ++ [r])).
Proof.
  unfold group_step. rewrite contains_tabulate, fmap_app.
  change (base <$> [r]) with [base r]. rewrite first_seen_snoc.
  assert (∀ k, k ≠ base r →
               results_of k (results ++ [r]) = results_of k results) as Hother.
  { intros k Hk. rewrite results_of_snoc. by rewrite decide_False. }
  assert (results_of (base r) (results ++ [r]) =
          results_of (base r) results ++ [r]) as Hsame.
  { rewrite results_of_snoc. by rewrite decide_True. }
  destruct (decide (base r ∈ base <$> results)) as [Hseen|Hnew].
  - rewrite bool_decide_eq_true_2 by (by apply elem_of_first_seen).
    cbn [negb]. by apply alter_tabulate; [apply NoDup_first_seen|..].
  - rewrite bool_decide_eq_false_2 by (by rewrite elem_of_first_seen).
    cbn [negb].
    rewrite set_fresh
      by (rewrite tabulate_keys; by rewrite elem_of_first_seen).
    rewrite <- (results_of_unseen results (base r) Hnew) at 1.
    rewrite <- (tabulate_snoc (λ b, results_of b results)).
    apply alter_tabulate; [|done..].
    apply NoDup_app. split; [apply NoDup_first_seen|].
    split; [|apply NoDup_singleton].
    intros k Hk [->|[]%elem_of_nil]%elem_of_cons.
    by apply Hnew, (elem_of_first_seen (base <$> results)).
Qed.

Lemma group_by_base_tabulate results :
  group_by_base results =
  tabulate (λ b, results_of b results) (first_seen (base <$> results)).
Proof.
  induction results as [|r results IH] using rev_ind; [done|].
  unfold group_by_base in *. rewrite foldl_app. cbn [foldl].
  rewrite IH. apply group_step_tabulate.
Qed.

(** On a dict (unique keys) the filter loop keeps the groups that pass, in
    place. *)
Lemma filter_loop (acc grouped : list (string * list check_result)) :
  NoDup (acc.*1 ++ grouped.*1) →
  foldl (λ interesting '(base, results),
           if has_non_registered results
           then Dict.set base results interesting
           else interesting) acc grouped =
  acc ++ filter (λ p, has_non_registered p.2 = true) grouped.
Proof.
  revert acc; induction grouped as [|[b rs] grouped IH]; intros acc Hnodup.
  - cbn. by rewrite app_nil_r.
  - cbn [foldl]. cbn in Hnodup.
    apply NoDup_app in Hnodup as (Hacc & Hdisj & Hg).
    apply NoDup_cons in Hg as [Hb Hg].
    destruct (has_non_registered rs) eqn:Hrs.
    + rewrite filter_cons_True by done.
      rewrite set_fresh by (intros ?; eapply Hdisj; [done | by left]).
      rewrite IH; [by rewrite <- app_assoc|].
      rewrite fmap_app. cbn. apply NoDup_app. split; [|split; [|done]].
      * apply NoDup_app. split; [done|]. split; [|apply NoDup_singleton].
        intros k Hk [->|[]%elem_of_nil]%elem_of_cons.
        eapply Hdisj; [done | by left].
      * intros k [Hk|[->|[]%elem_of_nil]%elem_of_cons]%elem_of_app; [|done].
        intros Hk'. eapply Hdisj; [done | by right].
    + rewrite filter_cons_False
        by (intros Hc; cbn [snd] in Hc; congruence).
      apply IH. apply NoDup_app. split; [done|]. split; [|done].
      intros k Hk Hk'. eapply Hdisj; [done | by right].
Qed.

Lemma has_non_registered_iff results (b : string) :
  has_non_registered (results_of b results) = true ↔ interesting results b.
Proof.
  unfold has_non_registered, interesting, results_of.
  rewrite existsb_exists, Exists_exists. split.
  - intros (r & Hin & Hst%bool_decide_eq_true).
    apply list_elem_of_In, list_elem_of_filter in Hin as [Hb Hr].
    exists r. auto.
  - intros (r & Hr & Hb & Hst). exists r. split.
    + apply list_elem_of_In, list_elem_of_filter. auto.
    + by apply bool_decide_eq_true.
Qed.

Lemma filter_tabulate {V} (g : string → V) (Q : string * V → Prop)
    `{∀ p, Decision (Q p)} (P : string → Prop) `{∀ k, Decision (P k)}
    (keys : list string) :
  (∀ k, Q (k, g k) ↔ P k) →
  filter Q (tabulate g keys) = tabulate g (filter P keys).
Proof.
  intros HPQ. unfold tabulate. induction keys as [|k keys IH]; [done|].
  rewrite fmap_cons. destruct (decide (P k)) as [Hk|Hk].
  - rewrite (filter_cons_True P) by done. rewrite fmap_cons.
    rewrite filter_cons_True by (by apply HPQ). by rewrite IH.
  - rewrite (filter_cons_False P) by done.
    rewrite filter_cons_False by (by intros ?%HPQ). done.
Qed.

Lemma group_and_filter_tabulate results :
  filter_interesting_groups (group_by_base results) =
  tabulate (λ b, results_of b results)
           (filter (interesting results) (first_seen (base <$> results))).
Proof.
  unfold filter_interesting_groups. rewrite group_by_base_tabulate.
  rewrite filter_loop
    by (cbn; rewrite tabulate_keys; apply NoDup_first_seen).
  cbn [app]. apply filter_tabulate.
  intros k. apply has_non_registered_iff.
Qed.

(** C9. Grouping then filtering a sequence of results gives one group per
    base that has a result which is not REGISTERED, and no other group; the
    groups come in the order in which their bases first occur in the
    sequence, and each group holds all the results of its base in the order
    of the sequence. So a base with statuses REGISTERED, REGISTERED,
    AVAILABLE, REGISTERED is kept, with its four results, and a base whose
    results are all REGISTERED is dropped. *)
Theorem group_and_filter_spec (results : list check_result) :
  let out := filter_interesting_groups (group_by_base results) in
  out.*1 = filter (interesting results) (first_seen (base <$> results)) ∧
  (∀ b rs, (b, rs) ∈ out → rs = results_of b results) ∧
  (∀ b, b ∈ out.*1 ↔
        ∃ r, r ∈ results ∧ base r = b ∧ status r ≠ STATUS_REGISTERED) ∧
  (let acme :=
     [ CheckResult "acme.com" STATUS_REGISTERED "acme";
       CheckResult "acme.app" STATUS_REGISTERED "acme";
       CheckResult "acme.ai" STATUS_AVAILABLE "acme";
       CheckResult "acme.so" STATUS_REGISTERED "acme" ] in
   let zeta :=
     [ CheckResult "zeta.com" STATUS_REGISTERED "zeta";
       CheckResult "zeta.app" STATUS_REGISTERED "zeta";
       CheckResult "zeta.ai" STATUS_REGISTERED "zeta";
       CheckResult "zeta.so" STATUS_REGISTERED "zeta" ] in
   filter_interesting_groups (group_by_base (zeta ++ acme)) =
   [("acme", acme)]).
Proof.
  cbn zeta. rewrite group_and_filter_tabulate.
  repeat match goal with |- _ ∧ _ => split end.
  - apply tabulate_keys.
  - intros b rs Hin. unfold tabulate in Hin.
    apply list_elem_of_fmap in Hin as (k & [= -> ->] & _). done.
  - intros b. rewrite tabulate_keys, list_elem_of_filter.
    unfold interesting. rewrite Exists_exists. split; [by intros [? _]|].
    intros Hex. split; [done|].
    destruct Hex as (r & Hr & <- & _).
    apply elem_of_first_seen. by apply list_elem_of_fmap_2.
  - reflexivity.
Qed.

End Aggregator.

Lemma group_and_filter_spec_witness :
  let results :=
    [ CheckResult "a.com" STATUS_REGISTERED "a";
      CheckResult "b.com" STATUS_REGISTERED "b";
      CheckResult "a.app" STATUS_POSSIBLE_AVAILABLE "a" ] in
  "a" ∈ (filter_interesting_groups (group_by_base results)).*1.
Proof.
  intros results.
  destruct (group_and_filter_spec results) as (_ & _ & Hkept & _).
  apply Hkept. exists (CheckResult "a.app" STATUS_POSSIBLE_AVAILABLE "a").
  split; [|done]. do 2 right. by left.
Defined.

(** * More of keywords.py *)

Section NormalizerMore.

Context {unicode : Py.StrLower}.

Lemma lower_char_fixed (c : ascii) :
  in_a_z_0_9 c = true → Py.lower_char c = c.
Proof.
  destruct c as [[] [] [] [] [] [] [] []]; vm_compute;
    try (intros Hc; discriminate Hc); reflexivity.
Qed.

Lemma chars_app (s t : string) : chars (s +:+ t) = chars s ++ chars t.
Proof.
  unfold chars. induction s as [|a s IH]; [done|].
  rewrite app_cons_str. cbn. by f_equal.
Qed.

Lemma length_chars (s : string) : length (chars s) = String.length s.
Proof.
  unfold chars. induction s as [|a s IH]; cbn; [done|]. by f_equal.
Qed.

Lemma str_length_app (s t : string) :
  String.length (s +:+ t) = (String.length s + String.length t)%nat.
Proof. by rewrite <- !length_chars, chars_app, length_app. Qed.

Lemma lower_alnum_is_ascii_char (c : ascii) :
  in_a_z_0_9 c = true → Py.is_ascii_char c = true.
Proof.
  destruct c as [[] [] [] [] [] [] [] []]; vm_compute;
    try (intros Hc; discriminate Hc); reflexivity.
Qed.

(** Text of [a-z0-9] is ASCII text, and lowering does not change it. *)
Lemma lower_alnum_is_ascii (s : string) :
  (∀ c, c ∈ chars s → c ∈ LOWER_ALNUM) → Py.is_ascii s = true.
Proof.
  induction s as [|a s IH]; cbn; [done|]. intros Hs.
  rewrite lower_alnum_is_ascii_char, IH; [done| |].
  - intros c Hc. apply Hs. by right.
  - rewrite in_a_z_0_9_decides. apply bool_decide_eq_true. apply Hs. by left.
Qed.

Lemma lower_ascii_fixed (s : string) :
  (∀ c, c ∈ chars s → c ∈ LOWER_ALNUM) → Py.lower_ascii s = s.
Proof.
  induction s as [|a s IH]; cbn; [done|]. intros Hs.
  rewrite lower_char_fixed, IH; [done| |].
  - intros c Hc. apply Hs. by right.
  - rewrite in_a_z_0_9_decides. apply bool_decide_eq_true. apply Hs. by left.
Qed.

Lemma lower_fixed (s : string) :
  (∀ c, c ∈ chars s → c ∈ LOWER_ALNUM) → Py.lower s = s.
Proof.
  intros Hs. rewrite lower_on_ascii by (by apply lower_alnum_is_ascii).
  by apply lower_ascii_fixed.
Qed.

Lemma re_sub_fixed (s : string) :
  (∀ c, c ∈ chars s → c ∈ LOWER_ALNUM) → re_sub_non_a_z_0_9 s = s.
Proof.
  induction s as [|a s IH]; cbn; [done|]. intros Hs.
  rewrite in_a_z_0_9_decides, bool_decide_eq_true_2 by (apply Hs; by left).
  rewrite IH; [done|]. intros c Hc. apply Hs. by right.
Qed.

Lemma str_take_all (n : nat) (s : string) :
  (String.length s ≤ n)%nat → Py.str_take n s = s.
Proof.
  revert s; induction n as [|n IH]; intros [|a s]; cbn; try done; [lia|].
  intros Hlen. rewrite IH; [done | lia].
Qed.

Lemma normalize_name_charset (name : string) (c : ascii) :
  c ∈ chars (normalize_name name) → c ∈ LOWER_ALNUM.
Proof. intros Hc%str_take_chars. by eapply re_sub_charset. Qed.

Lemma normalize_name_fixed (s : string) :
  (String.length s ≤ 25)%nat → (∀ c, c ∈ chars s → c ∈ LOWER_ALNUM) →
  normalize_name s = s.
Proof.
  intros Hlen Hs. unfold normalize_name.
  by rewrite lower_fixed, re_sub_fixed, str_take_all.
Qed.

Lemma normalize_name_twice (name : string) :
  normalize_name (normalize_name name) = normalize_name name.
Proof.
  apply normalize_name_fixed.
  - apply str_take_length.
  - apply normalize_name_charset.
Qed.

(** X1. The names [normalize_name] leaves as they are, are the strings of
    at most 25 characters of [a-z0-9]; every output of [normalize_name] is
    one of them, so normalising twice is normalising once. *)
Theorem normalize_name_idempotent (name : string) :
  (normalize_name name = name ↔
   (String.length name ≤ 25)%nat ∧ ∀ c, c ∈ chars name → c ∈ LOWER_ALNUM) ∧
  normalize_name (normalize_name name) = normalize_name name.
Proof.
  split; [|apply normalize_name_twice]. split.
  - intros <-. split; [apply str_take_length | apply normalize_name_charset].
  - intros [Hlen Hs]. by apply normalize_name_fixed.
Qed.

End NormalizerMore.

Section VariationsMore.

Context {unicode : Py.StrLower}.

Lemma affix_charset (a : string) (c : ascii) :
  a ∈ AFFIXES → c ∈ chars a → c ∈ LOWER_ALNUM.
Proof.
  intros Ha Hc.
  assert (Forall (λ a, Forall (λ c, c ∈ LOWER_ALNUM) (chars a)) AFFIXES) as Hall.
  { apply (bool_decide_unpack _). by vm_compute. }
  rewrite Forall_forall in Hall. specialize (Hall a Ha).
  rewrite Forall_forall in Hall. by apply Hall.
Qed.

Lemma generate_variations_domain_safe (base_name x : string) :
  x ∈ generate_variations base_name → domain_safe x.
Proof.
  destruct (is_valid_name (normalize_name base_name)) eqn:Hvalid.
  - rewrite (elem_of_generate_variations _ _ Hvalid).
    apply is_valid_name_iff in Hvalid. unfold domain_safe.
    rewrite Forall_forall.
    intros [->|(a & Ha & Hx & Hlen)].
    + split; [done|]. apply normalize_name_charset.
    + split.
      * split; [|done]. destruct Hx as [-> | ->]; rewrite str_length_app; lia.
      * intros c. destruct Hx as [-> | ->]; rewrite chars_app;
          intros [Hc|Hc]%elem_of_app;
          first [by eapply normalize_name_charset | by eapply affix_charset].
  - rewrite generate_variations_invalid by done. by intros ?%elem_of_nil.
Qed.

(** X2. Whatever string [generate_variations] is given, every name it
    returns has 3 to 25 characters, all of [a-z0-9]; it is a valid name and
    [normalize_name] leaves it as it is. *)
Theorem generate_variations_names_are_safe (base_name x : string) :
  x ∈ generate_variations base_name →
  domain_safe x ∧ is_valid_name x = true ∧ normalize_name x = x.
Proof.
  intros Hx%generate_variations_domain_safe. split; [done|].
  destruct Hx as [Hlen Hchars]. rewrite Forall_forall in Hchars. split.
  - by apply is_valid_name_iff.
  - apply normalize_name_fixed; [lia | done].
Qed.

Lemma add_if_short_long (vs : gset string) (candidate : string) :
  (25 < String.length candidate)%nat → add_if_short vs candidate = vs.
Proof.
  intros Hlen. unfold add_if_short.
  destruct (Z.leb_spec (Z.of_nat (String.length candidate)) 25); [lia | done].
Qed.

Lemma size_add_if_short (vs : gset string) (candidate : string) :
  (size (add_if_short vs candidate) ≤ S (size vs))%nat.
Proof.
  unfold add_if_short. destruct (_ <=? _); [|lia].
  rewrite size_union_alt, size_singleton.
  pose proof (subseteq_size (vs ∖ {[candidate]}) vs
                (subseteq_difference_l _ _ _ (reflexivity _))). lia.
Qed.

Lemma size_affix_loop (f : string → string) (affixes : list string)
    (vs : gset string) :
  (size (foldl (λ vs affix, add_if_short vs (f affix)) vs affixes)
   ≤ size vs + length affixes)%nat.
Proof.
  revert vs; induction affixes as [|a affixes IH]; intros vs; cbn; [lia|].
  specialize (IH (add_if_short vs (f a))).
  pose proof (size_add_if_short vs (f a)). lia.
Qed.

(** X3. [generate_variations] returns at most nine names; it returns at
    least one, the cleaned name, when that name is valid; and for a cleaned
    name of 24 or 25 characters, which no affix fits, it returns the cleaned
    name alone. *)
Theorem generate_variations_bounds (base_name : string) :
  (length (generate_variations base_name) ≤ 9)%nat ∧
  (is_valid_name (normalize_name base_name) = true →
   normalize_name base_name ∈ generate_variations base_name) ∧
  ((24 ≤ String.length (normalize_name base_name))%nat →
   generate_variations base_name = [normalize_name base_name]).
Proof.
  repeat match goal with |- _ ∧ _ => split end.
  - unfold generate_variations. case (negb _); [cbn; lia|].
    change (length (elements ?X)) with (size X).
    etrans; [apply size_affix_loop|].
    pose proof (size_affix_loop (λ a, normalize_name base_name +:+ a) AFFIXES
                  {[normalize_name base_name]}) as Hsuffix.
    rewrite size_singleton in Hsuffix. cbn in *. lia.
  - intros Hvalid. apply elem_of_generate_variations; auto.
  - intros Hlong. unfold generate_variations.
    assert (String.length (normalize_name base_name) ≤ 25)%nat as Hle
      by apply str_take_length.
    assert (is_valid_name (normalize_name base_name) = true) as ->
      by (apply is_valid_name_iff; lia).
    unfold AFFIXES. cbn [negb foldl].
    rewrite !add_if_short_long
      by (rewrite str_length_app; cbn [String.length]; lia).
    apply elements_singleton.
Qed.

End VariationsMore.

Lemma generate_variations_names_are_safe_witness :
  domain_safe "acmeincai" ∧ is_valid_name "acmeincai" = true ∧
  normalize_name "acmeincai" = "acmeincai".
Proof.
  apply (generate_variations_names_are_safe "Acme, Inc.").
  apply (bool_decide_unpack _). by vm_compute.
Defined.

Lemma generate_variations_bounds_witness :
  generate_variations "International Business Machines" =
  ["internationalbusinessmach"].
Proof.
  destruct (generate_variations_bounds "International Business Machines")
    as (_ & _ & Hlong).
  apply Hlong. apply (bool_decide_unpack _). by vm_compute.
Defined.

Section BatchRotation.

Context {unicode : Py.StrLower}.

(** On day [d] with [d - 1] below the number of batches, the batch is the
    chunk of [b] keywords that starts at [(d - 1) * b]. *)
Lemma get_todays_batch_chunk (l : list string) (b d : Z) :
  l ≠ [] → 1 ≤ b → 0 ≤ d - 1 < (Py.len l + b - 1) / b →
  get_todays_batch b l d =
  Ok (take (Z.to_nat b) (drop (Z.to_nat ((d - 1) * b)) l)).
Proof.
  intros Hl Hb Hd.
  destruct (get_todays_batch_unfold l b d Hl Hb) as (Hk & Hs & He & Hes & ->).
  rewrite Z.mod_small in * by done. f_equal.
  destruct (Z.min_spec ((d - 1) * b + b) (Py.len l)) as [[_ ->]|[Hn ->]].
  - f_equal. lia.
  - unfold Py.len in *. rewrite !take_ge; [done|..]; rewrite length_drop; lia.
Qed.

Lemma concat_chunks {A} (l : list A) (b k : nat) :
  concat ((λ i, take b (drop (i * b) l)) <$> seq 0 k) = take (k * b) l.
Proof.
  induction k as [|k IH]; [done|].
  rewrite seq_S, fmap_app, concat_app, IH. cbn [fmap list_fmap concat].
  rewrite app_nil_r, take_take_drop. f_equal. lia.
Qed.

(** X4. On a non-empty corpus with [b >= 1], the batches of the days 1 to
    [k], where [k] is the number of batches, are consecutive chunks of the
    corpus: put one after the other they give back the corpus, every
    keyword once and in order. *)
Theorem get_todays_batch_cycle (all_keywords : list string) (b : Z) :
  all_keywords ≠ [] → 1 ≤ b →
  let k := (Py.len all_keywords + b - 1) / b in
  ∃ batches,
    Forall2 (λ i batch,
               get_todays_batch b all_keywords (Z.of_nat i + 1) = Ok batch)
            (seq 0 (Z.to_nat k)) batches ∧
    concat batches = all_keywords.
Proof.
  intros Hl Hb k.
  exists ((λ i, take (Z.to_nat b) (drop (i * Z.to_nat b) all_keywords))
            <$> seq 0 (Z.to_nat k)).
  split.
  - apply Forall2_fmap_r, Forall_Forall2_diag, Forall_forall.
    intros i Hi%elem_of_seq.
    rewrite get_todays_batch_chunk by (try done; fold k; lia).
    do 3 f_equal. lia.
  - rewrite concat_chunks. apply take_ge.
    pose proof (total_batches_is_ceiling (Py.len all_keywords) b Hb) as Hk.
    fold k in Hk. unfold Py.len in Hk. nia.
Qed.

(** X5. A day of month is at most 31, so at most 31 batches are ever
    reached: the keywords from position [31 * b] on have no part in any
    day's batch. Cutting the corpus to its first [31 * b] keywords changes
    no outcome of [get_todays_batch]. *)
Theorem get_todays_batch_ignores_tail (all_keywords : list string) (b d : Z) :
  1 ≤ b → 1 ≤ d ≤ 31 →
  get_todays_batch b all_keywords d =
  get_todays_batch b (take (Z.to_nat (31 * b)) all_keywords) d.
Proof.
  intros Hb Hd.
  destruct (decide (Py.len all_keywords ≤ 31 * b)) as [Hshort|Hlong].
  { rewrite take_ge; [done|]. unfold Py.len in Hshort. lia. }
  assert (all_keywords ≠ []) as Hl.
  { intros ->. unfold Py.len in Hlong. cbn in Hlong. lia. }
  assert (Py.len (take (Z.to_nat (31 * b)) all_keywords) = 31 * b) as Hlen.
  { unfold Py.len in *. rewrite length_take. lia. }
  assert (take (Z.to_nat (31 * b)) all_keywords ≠ []) as Hl'.
  { intros Hnil. rewrite Hnil in Hlen. unfold Py.len in Hlen. cbn in Hlen. lia. }
  pose proof (total_batches_is_ceiling (Py.len all_keywords) b Hb) as Hk.
  pose proof (total_batches_is_ceiling (31 * b) b Hb) as Hk'.
  rewrite !get_todays_batch_chunk by (rewrite ?Hlen; try done; nia).
  f_equal. rewrite !take_drop_commute, take_take. do 2 f_equal. nia.
Qed.

End BatchRotation.

Lemma get_todays_batch_cycle_witness :
  ∃ batches,
    Forall2 (λ i batch,
               get_todays_batch 2 ["a"; "b"; "c"; "d"; "e"] (Z.of_nat i + 1)
               = Ok batch)
            (seq 0 3) batches ∧
    concat batches = ["a"; "b"; "c"; "d"; "e"].
Proof.
  apply (get_todays_batch_cycle ["a"; "b"; "c"; "d"; "e"] 2); [done | lia].
Defined.

Lemma get_todays_batch_ignores_tail_witness :
  get_todays_batch 1 (replicate 40 "k") 31 =
  get_todays_batch 1 (take (Z.to_nat (31 * 1)) (replicate 40 "k")) 31.
Proof. apply get_todays_batch_ignores_tail; lia. Defined.

Section StringOrder.

Context {unicode : Py.StrLower}.

Lemma str_le_total (a b : string) : str_le a b ∨ str_le b a.
Proof. apply String.leb_total. Qed.

Lemma ascii_compare_lt_trans (x y z : ascii) :
  Ascii.compare x y = Lt → Ascii.compare y z = Lt → Ascii.compare x z = Lt.
Proof.
  unfold Ascii.compare. rewrite !N.compare_lt_iff. lia.
Qed.

Lemma str_compare_trans (a b c : string) :
  String.compare a b ≠ Gt → String.compare b c ≠ Gt →
  String.compare a c ≠ Gt ∧
  (String.compare a b = Lt ∨ String.compare b c = Lt →
   String.compare a c = Lt).
Proof.
  revert b c; induction a as [|x a IH]; intros [|y b] [|z c]; cbn;
    try done; try (intuition congruence).
  destruct (Ascii.compare x y) eqn:Hxy; [| |done].
  - apply Ascii.compare_eq_iff in Hxy as ->.
    destruct (Ascii.compare y z) eqn:Hyz; [| |done].
    + apply IH.
    + intuition congruence.
  - destruct (Ascii.compare y z) eqn:Hyz; [| |done].
    + apply Ascii.compare_eq_iff in Hyz as <-. rewrite Hxy.
      intuition congruence.
    + rewrite (ascii_compare_lt_trans x y z) by done. intuition congruence.
Qed.

Lemma str_le_trans (a b c : string) : str_le a b → str_le b c → str_le a c.
Proof.
  unfold str_le, String.leb. intros Hab Hbc.
  destruct (str_compare_trans a b c) as [Hac _].
  - by destruct (String.compare a b).
  - by destruct (String.compare b c).
  - by destruct (String.compare a c).
Qed.

Lemma str_lt_trans (a b c : string) : str_lt a b → str_lt b c → str_lt a c.
Proof.
  unfold str_lt, String.ltb. intros Hab Hbc.
  destruct (str_compare_trans a b c) as [_ Hac].
  - by destruct (String.compare a b).
  - by destruct (String.compare b c).
  - rewrite Hac; [done|]. left. by destruct (String.compare a b).
Qed.

Lemma str_le_ne_lt (a b : string) : str_le a b → a ≠ b → str_lt a b.
Proof.
  unfold str_le, str_lt, String.leb, String.ltb. intros Hle Hne.
  destruct (String.compare a b) eqn:Hcmp; [|done|done].
  by apply String.compare_eq_iff in Hcmp.
Qed.

Lemma str_lt_irrefl (a : string) : ¬ str_lt a a.
Proof.
  unfold str_lt, String.ltb. pose proof (String.compare_antisym a a) as H.
  by destruct (String.compare a a).
Qed.

Lemma elem_of_sorted (l : list string) (x : string) : x ∈ sorted l ↔ x ∈ l.
Proof. unfold sorted. by rewrite merge_sort_Permutation. Qed.

(** A list sorted by [<=] that has no duplicates ascends strictly. *)
Lemma sorted_NoDup_strict (l : list string) :
  NoDup l → StronglySorted str_lt (sorted l).
Proof.
  intros Hnodup.
  assert (NoDup (sorted l)) as Hnd.
  { unfold sorted. by rewrite merge_sort_Permutation. }
  assert (StronglySorted str_le (sorted l)) as Hsorted.
  { apply StronglySorted_merge_sort.
    - intros a b c. apply str_le_trans.
    - intros a b. apply str_le_total. }
  induction Hsorted as [|a l' Hl' IH Hhd]; [constructor|].
  apply NoDup_cons in Hnd as [Ha Hnd].
  constructor; [by apply IH|].
  rewrite Forall_forall in *. intros x Hx.
  apply str_le_ne_lt; [by apply Hhd | by intros ->].
Qed.

End StringOrder.

Section Corpus.

Context {unicode : Py.StrLower}.

Lemma elem_of_variations_loop (names : list string) (acc : gset string)
    (x : string) :
  x ∈ foldl (λ all_variations name,
               all_variations ∪ list_to_set (generate_variations name))
            acc names ↔
  x ∈ acc ∨ ∃ name, name ∈ names ∧ x ∈ generate_variations name.
Proof.
  revert acc; induction names as [|n names IH]; intros acc; cbn.
  - split; [by left|]. intros [?|(? & []%elem_of_nil & _)]; done.
  - rewrite IH, elem_of_union, elem_of_list_to_set. split.
    + intros [[?|?]|(name & ? & ?)].
      * by left.
      * right. exists n. split; [by left | done].
      * right. exists name. split; [by right | done].
    + intros [?|(name & [->|?]%elem_of_cons & ?)].
      * by left; left.
      * by left; right.
      * right. by exists name.
Qed.

Lemma generate_variations_normalized (name : string) :
  generate_variations (normalize_name name) = generate_variations name.
Proof. unfold generate_variations. by rewrite normalize_name_twice. Qed.

Lemma elem_of_process_all_keywords (all_names : list string) (x : string) :
  x ∈ process_all_keywords all_names ↔
  ∃ name, name ∈ all_names ∧ x ∈ generate_variations name.
Proof.
  unfold process_all_keywords.
  rewrite elem_of_sorted, elem_of_elements, elem_of_variations_loop.
  split.
  - intros [[]%elem_of_empty|(n & Hn & Hx)].
    apply elem_of_elements, elem_of_list_to_set, list_elem_of_filter in Hn
      as [_ Hn].
    apply list_elem_of_fmap in Hn as (raw & -> & Hraw).
    apply elem_of_elements, elem_of_list_to_set in Hraw.
    exists raw. split; [done|]. by rewrite <- generate_variations_normalized.
  - intros (raw & Hraw & Hx). right. exists (normalize_name raw).
    rewrite generate_variations_normalized. split; [|done].
    apply elem_of_elements, elem_of_list_to_set, list_elem_of_filter. split.
    + destruct (is_valid_name (normalize_name raw)) eqn:Hvalid; [done|].
      rewrite generate_variations_invalid in Hx by done.
      by apply elem_of_nil in Hx.
    + apply list_elem_of_fmap. exists raw. split; [done|].
      by apply elem_of_elements, elem_of_list_to_set.
Qed.

(** X6. The corpus [process_all_keywords] builds from the fetched names
    holds exactly the variations of those names; it ascends strictly in the
    order of Python strings, so it has no duplicates; and every keyword in
    it has 3 to 25 characters of [a-z0-9]. *)
Theorem process_all_keywords_spec (all_names : list string) :
  (∀ x, x ∈ process_all_keywords all_names ↔
        ∃ name, name ∈ all_names ∧ x ∈ generate_variations name) ∧
  StronglySorted str_lt (process_all_keywords all_names) ∧
  NoDup (process_all_keywords all_names) ∧
  Forall domain_safe (process_all_keywords all_names).
Proof.
  split; [apply elem_of_process_all_keywords|]. split; [|split].
  - apply sorted_NoDup_strict, NoDup_elements.
  - unfold process_all_keywords, sorted. rewrite merge_sort_Permutation.
    apply NoDup_elements.
  - apply Forall_forall. intros x (name & _ & Hx)%elem_of_process_all_keywords.
    by eapply generate_variations_domain_safe.
Qed.

End Corpus.

(** * More of main.py, and the report *)

Section Synthesizer.

Context {unicode : Py.StrLower}.

Lemma generate_domains_cons (k : string) (keywords : list string) :
  generate_domains (k :: keywords) =
  [ Candidate k (k +:+ ".com") ".com"; Candidate k (k +:+ ".app") ".app";
    Candidate k (k +:+ ".ai") ".ai"; Candidate k (k +:+ ".so") ".so" ] ++
  generate_domains keywords.
Proof. reflexivity. Qed.

Lemma generate_domains_length (keywords : list string) :
  Py.len (generate_domains keywords) = 4 * Py.len keywords.
Proof.
  unfold Py.len. induction keywords as [|k keywords IH]; [done|].
  rewrite generate_domains_cons, length_app. cbn [length]. lia.
Qed.

Lemma elem_of_generate_domains (keywords : list string) (c : candidate) :
  c ∈ generate_domains keywords ↔
  ∃ k tld, k ∈ keywords ∧ tld ∈ TLDS ∧ c = Candidate k (k +:+ tld) tld.
Proof.
  unfold generate_domains. rewrite list_elem_of_bind. split.
  - intros (k & (tld & Hc%list_elem_of_singleton & Htld)%list_elem_of_bind & Hk).
    by exists k, tld.
  - intros (k & tld & Hk & Htld & ->). exists k. split; [|done].
    apply list_elem_of_bind. exists tld. split; [|done].
    by apply list_elem_of_singleton.
Qed.

(** X7. [generate_domains] makes four candidates of every keyword, and
    nothing else: the candidates are the records [(k, k + tld, tld)] for
    [k] a keyword and [tld] one of .com, .app, .ai, .so, and the candidate
    of keyword number [i] and TLD number [j] stands at position
    [4 * i + j]. *)
Theorem generate_domains_spec (keywords : list string) :
  Py.len (generate_domains keywords) = 4 * Py.len keywords ∧
  (∀ c, c ∈ generate_domains keywords ↔
        ∃ k tld, k ∈ keywords ∧ tld ∈ [".com"; ".app"; ".ai"; ".so"] ∧
                 c = Candidate k (k +:+ tld) tld) ∧
  (∀ (i j : nat) k tld,
     keywords !! i = Some k → [".com"; ".app"; ".ai"; ".so"] !! j = Some tld →
     generate_domains keywords !! (4 * i + j)%nat =
     Some (Candidate k (k +:+ tld) tld)).
Proof.
  split; [apply generate_domains_length|].
  split; [apply elem_of_generate_domains|].
  induction keywords as [|k0 keywords IH]; intros i j k tld Hk Htld; [done|].
  rewrite generate_domains_cons. destruct i as [|i].
  - injection Hk as ->.
    by destruct j as [|[|[|[|j]]]]; simplify_eq/=.
  - rewrite lookup_app_r by (cbn [length]; lia).
    replace (4 * S i + j - length _)%nat with (4 * i + j)%nat
      by (cbn [length]; lia).
    by apply IH.
Qed.

Lemma split_at_dot (k1 k2 t1 t2 : string) :
  "."%char ∉ chars k1 → "."%char ∉ chars k2 →
  k1 +:+ String "." t1 = k2 +:+ String "." t2 → k1 = k2 ∧ t1 = t2.
Proof.
  revert k2; induction k1 as [|a k1 IH]; intros [|b k2] H1 H2;
    rewrite ?app_cons_str; unfold chars in *; cbn in H1, H2.
  - by intros [= ->].
  - intros [= <- _]. exfalso. apply H2. by left.
  - intros [= -> _]. exfalso. apply H1. by left.
  - intros [= -> Heq]. destruct (IH k2) as [-> ->]; [| |done..].
    + intros ?. apply H1. by right.
    + intros ?. apply H2. by right.
Qed.

Lemma domain_safe_no_dot (k : string) : domain_safe k → "."%char ∉ chars k.
Proof.
  intros [_ Hchars] Hdot. rewrite Forall_forall in Hchars.
  apply Hchars in Hdot. revert Hdot. apply (bool_decide_unpack _).
  by vm_compute.
Qed.

Lemma tld_starts_with_dot (tld : string) :
  tld ∈ TLDS → ∃ t, tld = String "." t.
Proof.
  unfold TLDS. intros Htld.
  repeat (apply elem_of_cons in Htld as [->|Htld]; [by eexists|]).
  by apply elem_of_nil in Htld.
Qed.

Lemma generate_domains_names (keywords : list string) :
  c_domain <$> generate_domains keywords =
  keywords ≫= λ k, (λ tld, k +:+ tld) <$> TLDS.
Proof.
  induction keywords as [|k keywords IH]; [done|].
  rewrite generate_domains_cons, fmap_app, IH. reflexivity.
Qed.

Lemma generate_domains_NoDup (keywords : list string) :
  NoDup keywords → Forall domain_safe keywords →
  NoDup (c_domain <$> generate_domains keywords).
Proof.
  intros Hnodup Hsafe. rewrite Forall_forall in Hsafe.
  rewrite generate_domains_names. apply NoDup_bind; [| |done].
  - intros k1 k2 d Hk1 Hk2 Hd1 Hd2.
    apply list_elem_of_fmap in Hd1 as (tld1 & -> & Ht1).
    apply list_elem_of_fmap in Hd2 as (tld2 & Heq & Ht2).
    apply tld_starts_with_dot in Ht1 as [t1 ->].
    apply tld_starts_with_dot in Ht2 as [t2 ->].
    by apply split_at_dot in Heq as [-> _];
      [|apply domain_safe_no_dot; apply Hsafe..].
  - intros k Hk. apply NoDup_fmap_2_strong.
    + intros tld1 tld2 Ht1 Ht2 Heq.
      apply tld_starts_with_dot in Ht1 as [t1 ->].
      apply tld_starts_with_dot in Ht2 as [t2 ->].
      by apply split_at_dot in Heq as [_ ->];
        [|apply domain_safe_no_dot; apply Hsafe..].
    + apply (bool_decide_unpack _). by vm_compute.
Qed.

(** X8. From keywords that are pairwise different and made of [a-z0-9],
    [generate_domains] makes pairwise different domain names: no domain is
    looked up twice in a run, and a domain name tells which keyword and
    which TLD it was made of. *)
Theorem generate_domains_no_repeat (keywords : list string) :
  NoDup keywords → Forall domain_safe keywords →
  NoDup (c_domain <$> generate_domains keywords) ∧
  ∀ c1 c2, c1 ∈ generate_domains keywords → c2 ∈ generate_domains keywords →
           c_domain c1 = c_domain c2 → c1 = c2.
Proof.
  intros Hnodup Hsafe. split; [by apply generate_domains_NoDup|].
  rewrite Forall_forall in Hsafe.
  intros c1 c2 (k1 & tld1 & Hk1 & Ht1 & ->)%elem_of_generate_domains
               (k2 & tld2 & Hk2 & Ht2 & ->)%elem_of_generate_domains Heq.
  cbn in Heq.
  apply tld_starts_with_dot in Ht1 as [t1 ->].
  apply tld_starts_with_dot in Ht2 as [t2 ->].
  by apply split_at_dot in Heq as [-> ->];
    [|apply domain_safe_no_dot; apply Hsafe..].
Qed.

End Synthesizer.

Lemma generate_domains_no_repeat_witness :
  NoDup (c_domain <$> generate_domains ["acme"; "acmeai"]).
Proof.
  apply (generate_domains_no_repeat ["acme"; "acmeai"]).
  - apply (bool_decide_unpack _). by vm_compute.
  - repeat constructor; cbn; try lia; apply (bool_decide_unpack _);
      by vm_compute.
Defined.

Section Sequential.

Context {unicode : Py.StrLower}.

Lemma check_domain_calls (w : world) (domain : string) (log : list event) :
  check_domain w domain log =
  (Ok {| ds_domain := domain; ds_status := verdict w domain |},
   log ++ calls w domain).
Proof.
  rewrite check_domain_run. unfold verdict, calls.
  destruct (decide (rdap_inconclusive w domain)) as [Hnone|Hsome];
    unfold rdap_inconclusive in *.
  - by rewrite Hnone.
  - by destruct (rdap_verdict _).
Qed.

Lemma verdict_is_status (w : world) (domain : string) :
  is_status (verdict w domain).
Proof.
  unfold verdict, is_status.
  destruct (rdap_verdict _) as [s|] eqn:Hrdap.
  - apply rdap_verdict_values in Hrdap as [->| ->]; auto.
  - destruct (dns_verdict _) as [s|] eqn:Hdns; cbn; [|auto].
    apply dns_verdict_values in Hdns as [->| ->]; auto.
Qed.

Lemma process_loop_run (w : world) (domain_list : list candidate)
    (results : list check_result) (log : list event) :
  process_loop w domain_list results log =
  (Ok (results ++ (result_for w <$> domain_list)),
   log ++ (domain_list ≫= λ item, calls w (c_domain item))).
Proof.
  revert results log.
  induction domain_list as [|item rest IH]; intros results log.
  - cbn. by rewrite !app_nil_r.
  - cbn [process_loop]. unfold mbind at 1, M_bind.
    rewrite check_domain_calls, IH. cbn [ds_domain ds_status].
    rewrite bind_cons, fmap_cons, <- !app_assoc. reflexivity.
Qed.

Lemma process_domains_sequential_run (w : world)
    (domain_list : list candidate) (log : list event) :
  process_domains_sequential w domain_list log =
  (Ok (result_for w <$> domain_list),
   log ++ (domain_list ≫= λ item, calls w (c_domain item))).
Proof. unfold process_domains_sequential. by rewrite process_loop_run. Qed.

(** X9. [process_domains_sequential] never raises and returns one result
    per candidate, in the order of the candidates: the result carries the
    candidate's domain and base, and its status is the one [check_domain]
    gives that domain, one of the three statuses. *)
Theorem process_domains_sequential_results (w : world)
    (domain_list : list candidate) (log : list event) :
  ∃ results log',
    process_domains_sequential w domain_list log = (Ok results, log') ∧
    Forall2 (λ item r,
               domain r = c_domain item ∧ base r = c_base item ∧
               (run (check_domain w (c_domain item))).1 =
                 Ok {| ds_domain := domain r; ds_status := status r |} ∧
               is_status (status r))
            domain_list results.
Proof.
  rewrite process_domains_sequential_run. eexists _, _. split; [done|].
  apply Forall2_fmap_r, Forall_Forall2_diag, Forall_forall.
  intros item _. unfold run. rewrite check_domain_calls.
  repeat split. apply verdict_is_status.
Qed.

Lemma calls_http_gets (w : world) (d : string) :
  http_gets (calls w d) = [rdap_url d].
Proof. unfold calls. by case_decide. Qed.

Lemma calls_sleeps (w : world) (d : string) : sleeps (calls w d) = [DELAY_MS].
Proof. unfold calls. by case_decide. Qed.

Lemma calls_dns_lookups (w : world) (d : string) :
  dns_lookups (calls w d) = if decide (rdap_inconclusive w d) then [d] else [].
Proof. unfold calls. by case_decide. Qed.

Lemma all_calls_http_gets (w : world) (domain_list : list candidate) :
  http_gets (domain_list ≫= λ item, calls w (c_domain item)) =
  (λ item, rdap_url (c_domain item)) <$> domain_list.
Proof.
  induction domain_list as [|item rest IH]; [done|].
  rewrite bind_cons, fmap_cons. unfold http_gets in *.
  by rewrite omap_app, IH, (calls_http_gets w).
Qed.

Lemma all_calls_sleeps (w : world) (domain_list : list candidate) :
  sleeps (domain_list ≫= λ item, calls w (c_domain item)) =
  replicate (length domain_list) DELAY_MS.
Proof.
  induction domain_list as [|item rest IH]; [done|].
  rewrite bind_cons. unfold sleeps in *.
  by rewrite omap_app, IH, (calls_sleeps w).
Qed.

Lemma all_calls_dns_lookups (w : world) (domain_list : list candidate) :
  dns_lookups (domain_list ≫= λ item, calls w (c_domain item)) =
  filter (rdap_inconclusive w) (c_domain <$> domain_list).
Proof.
  induction domain_list as [|item rest IH]; [done|].
  rewrite bind_cons, fmap_cons, filter_cons. unfold dns_lookups in *.
  rewrite omap_app, IH, (calls_dns_lookups w). by case_decide.
Qed.

(** X10. The calls of [process_domains_sequential] are added to the log
    after what is there: one RDAP request per candidate, for the
    candidates' domains in order; one pause of [DELAY_MS] per candidate,
    whatever the outcome of its lookups; and DNS lookups for just the
    domains the registry did not settle, in order. *)
Theorem process_domains_sequential_calls (w : world)
    (domain_list : list candidate) (log : list event) :
  ∃ new,
    (process_domains_sequential w domain_list log).2 = log ++ new ∧
    http_gets new = (λ item, rdap_url (c_domain item)) <$> domain_list ∧
    sleeps new = replicate (length domain_list) DELAY_MS ∧
    dns_lookups new =
      filter (rdap_inconclusive w) (c_domain <$> domain_list).
Proof.
  rewrite process_domains_sequential_run. eexists. split; [done|].
  split; [apply all_calls_http_gets|].
  split; [apply all_calls_sleeps | apply all_calls_dns_lookups].
Qed.

End Sequential.

Section Main.

Context {unicode : Py.StrLower}.

Lemma count_status_partition (results : list check_result) :
  Forall (λ r, is_status (status r)) results →
  count_status STATUS_AVAILABLE results +
  count_status STATUS_POSSIBLE_AVAILABLE results +
  count_status STATUS_REGISTERED results = Py.len results.
Proof.
  unfold count_status, Py.len.
  induction 1 as [|r results Hr _ IH]; [done|].
  rewrite !filter_cons. cbn [length].
  destruct Hr as [Hr|[Hr|Hr]]; rewrite Hr;
    repeat case_decide; try done; cbn [length]; lia.
Qed.

Lemma results_are_statuses (w : world) (domain_list : list candidate) :
  Forall (λ r, is_status (status r)) (result_for w <$> domain_list).
Proof.
  apply Forall_fmap, Forall_forall. intros item _. apply verdict_is_status.
Qed.

(** What [main] does once the batch is known. *)
Lemma main_run (w : world) (l : list string) (d : Z) (log : list event) :
  main w l d log =
  match get_todays_batch 200 l d with
  | Raise e => (Raise e, log)
  | Ok keywords =>
      if Py.len keywords =? 0 then (Ok NoKeywordsToProcess, log)
      else
        let results := result_for w <$> generate_domains keywords in
        (Ok (Checked {|
           sm_results := results;
           sm_interesting := filter_interesting_groups (group_by_base results);
           sm_total_available := count_status STATUS_AVAILABLE results;
           sm_total_possible := count_status STATUS_POSSIBLE_AVAILABLE results;
           sm_total_registered := count_status STATUS_REGISTERED results |}),
         log ++ (generate_domains keywords ≫= λ item, calls w (c_domain item)))
  end.
Proof.
  unfold main, lift, mbind at 1, M_bind.
  destruct (get_todays_batch 200 l d) as [keywords|e]; [|done].
  destruct (Py.len keywords =? 0); [done|].
  unfold mbind, M_bind. by rewrite process_domains_sequential_run.
Qed.

Lemma get_todays_batch_ok_bounds (l batch : list string) (b d : Z) :
  1 ≤ b → get_todays_batch b l d = Ok batch →
  1 ≤ Py.len batch ≤ b ∧ batch `sublist_of` l.
Proof.
  intros Hb Hbatch. destruct l as [|k l].
  { by rewrite get_todays_batch_no_keywords in Hbatch. }
  destruct (get_todays_batch_unfold (k :: l) b d ltac:(done) Hb)
    as (Hk & Hs & He & Hes & Heq).
  rewrite Heq in Hbatch. injection Hbatch as <-. split.
  - rewrite segment_length; lia.
  - etrans; [apply sublist_take | apply sublist_drop].
Qed.

(** X11. When [main] gets as far as its summary, the batch had 1 to 200
    keywords and four results were made per keyword, at most 800; the
    three totals add up to the number of results; and the interesting
    groups are those of the results. *)
Theorem main_summary_counts (w : world) (all_keywords : list string) (d : Z)
    (log : list event) (s : summary) :
  (main w all_keywords d log).1 = Ok (Checked s) →
  (∃ batch, get_todays_batch 200 all_keywords d = Ok batch ∧
            1 ≤ Py.len batch ≤ 200 ∧
            Py.len (sm_results s) = 4 * Py.len batch) ∧
  sm_total_available s + sm_total_possible s + sm_total_registered s =
    Py.len (sm_results s) ∧
  sm_interesting s = filter_interesting_groups (group_by_base (sm_results s)).
Proof.
  rewrite main_run.
  destruct (get_todays_batch 200 all_keywords d) as [batch|e] eqn:Hbatch;
    [|done].
  destruct (Py.len batch =? 0); [done|]. cbn. intros [= <-]. cbn.
  split; [|split; [|done]].
  - exists batch. split; [done|].
    split; [by eapply get_todays_batch_ok_bounds|].
    unfold Py.len. rewrite length_fmap. apply generate_domains_length.
  - apply count_status_partition, results_are_statuses.
Qed.

(** X12. Every RDAP request of a run of [main] is for a keyword of the
    corpus followed by one of the four TLDs; a run makes at most 800 RDAP
    requests and at most 800 DNS lookups, and pauses [DELAY_MS] once per
    request. *)
Theorem main_requests (w : world) (all_keywords : list string) (d : Z) :
  let log := (run (main w all_keywords d)).2 in
  (∀ url, url ∈ http_gets log →
          ∃ k tld, k ∈ all_keywords ∧ tld ∈ [".com"; ".app"; ".ai"; ".so"] ∧
                   url = "https://rdap.org/domain/" +:+ k +:+ tld) ∧
  (length (http_gets log) ≤ 800)%nat ∧
  (length (dns_lookups log) ≤ length (http_gets log))%nat ∧
  sleeps log = replicate (length (http_gets log)) DELAY_MS.
Proof.
  cbn zeta. unfold run. rewrite main_run.
  destruct (get_todays_batch 200 all_keywords d) as [batch|e] eqn:Hbatch.
  2:{ cbn. split; [by intros ? ?%elem_of_nil|]. split; [lia|done]. }
  destruct (Py.len batch =? 0).
  { cbn. split; [by intros ? ?%elem_of_nil|]. split; [lia|done]. }
  cbn [snd app].
  rewrite all_calls_http_gets, all_calls_sleeps, all_calls_dns_lookups.
  apply get_todays_batch_ok_bounds in Hbatch as [Hlen Hsub]; [|lia].
  pose proof (generate_domains_length batch) as Hdomains.
  unfold Py.len in *. rewrite !length_fmap.
  split; [|split; [lia|split; [|done]]].
  - intros url (c & -> & Hc)%list_elem_of_fmap.
    apply elem_of_generate_domains in Hc as (k & tld & Hk & Htld & ->).
    exists k, tld. split; [by eapply elem_of_sublist|]. split; [done|].
    reflexivity.
  - etrans; [apply length_filter|]. by rewrite length_fmap.
Qed.

End Main.

Lemma main_summary_counts_witness :
  let w := {| requests_get := λ _, Raise ConnectionError;
              resolver_resolve := λ _, Raise NXDOMAIN |} in
  ∃ s, (main w ["acme"] 1 []).1 = Ok (Checked s) ∧
       sm_total_available s + sm_total_possible s + sm_total_registered s =
       Py.len (sm_results s).
Proof.
  intros w.
  assert (∃ s, (main w ["acme"] 1 []).1 = Ok (Checked s)) as [s Hs]
    by (eexists; vm_compute; reflexivity).
  exists s. split; [done|].
  by destruct (main_summary_counts w ["acme"] 1 [] s Hs) as (_ & Hsum & _).
Defined.

Section Groups.

Context {unicode : Py.StrLower}.

Implicit Types (results : list check_result) (r : check_result).

Lemma tabulate_values {V} (g : string → V) (keys : list string) :
  (tabulate g keys).*2 = g <$> keys.
Proof. unfold tabulate. rewrite <- list_fmap_compose. done. Qed.

Lemma tabulate_nil {V} (g : string → V) (keys : list string) :
  tabulate g keys = [] ↔ keys = [].
Proof. by destruct keys. Qed.

Lemma elem_of_tabulate {V} (g : string → V) (keys : list string)
    (k : string) (v : V) :
  (k, v) ∈ tabulate g keys ↔ k ∈ keys ∧ v = g k.
Proof.
  unfold tabulate. rewrite list_elem_of_fmap. split.
  - by intros (k' & [= -> ->] & Hk).
  - intros [Hk ->]. by exists k.
Qed.

Lemma filter_disjoint_union {A} (P Q R : A → Prop)
    `{∀ x, Decision (P x)} `{∀ x, Decision (Q x)} `{∀ x, Decision (R x)}
    (l : list A) :
  (∀ x, R x ↔ P x ∨ Q x) → (∀ x, P x → Q x → False) →
  filter P l ++ filter Q l ≡ₚ filter R l.
Proof.
  intros HR Hdisj. induction l as [|x l IH]; [done|].
  rewrite !filter_cons.
  destruct (decide (P x)) as [HP|HP], (decide (Q x)) as [HQ|HQ].
  - by destruct (Hdisj x).
  - rewrite decide_True by (apply HR; auto). cbn. by rewrite IH.
  - rewrite decide_True by (apply HR; auto).
    by rewrite <- Permutation_middle, IH.
  - by rewrite decide_False by (rewrite HR; tauto).
Qed.

Lemma concat_results_of results (keys : list string) :
  NoDup keys →
  concat ((λ b, results_of b results) <$> keys) ≡ₚ
  filter (λ r, base r ∈ keys) results.
Proof.
  induction 1 as [|k keys Hk Hnodup IH]; cbn [fmap list_fmap concat].
  - induction results as [|r results IHr]; [done|].
    rewrite filter_cons, decide_False; [done | apply not_elem_of_nil].
  - rewrite IH. unfold results_of. apply filter_disjoint_union.
    + intros r. rewrite elem_of_cons. done.
    + intros r -> Hin. done.
Qed.

Lemma filter_all {A} (P : A → Prop) `{∀ x, Decision (P x)} (l : list A) :
  Forall P l → filter P l = l.
Proof.
  induction 1 as [|x l Hx _ IH]; [done|].
  by rewrite filter_cons, decide_True, IH.
Qed.

Lemma results_of_seen results (b : string) :
  b ∈ base <$> results → results_of b results ≠ [].
Proof.
  intros (r & -> & Hr)%list_elem_of_fmap Hnil.
  by eapply (filter_nil_not_elem_of (λ r', base r' = base r)).
Qed.

(** X13. [group_by_base] splits the results into groups without losing,
    repeating or inventing a result: its keys are pairwise different, no
    group is empty, the group of a key holds exactly the results of that
    base in their order, every result is in the group of its base, and the
    groups taken together are the results, rearranged. *)
Theorem group_by_base_partition results :
  let grouped := group_by_base results in
  NoDup grouped.*1 ∧
  (∀ b rs, (b, rs) ∈ grouped → rs ≠ [] ∧ rs = results_of b results) ∧
  (∀ r, r ∈ results → ∃ rs, (base r, rs) ∈ grouped ∧ r ∈ rs) ∧
  concat grouped.*2 ≡ₚ results.
Proof.
  cbn zeta. rewrite group_by_base_tabulate.
  repeat match goal with |- _ ∧ _ => split end.
  - rewrite tabulate_keys. apply NoDup_first_seen.
  - intros b rs [Hb ->]%elem_of_tabulate. split; [|done].
    by apply results_of_seen, elem_of_first_seen.
  - intros r Hr. exists (results_of (base r) results). split.
    + apply elem_of_tabulate. split; [|done].
      apply elem_of_first_seen. by apply list_elem_of_fmap_2.
    + by apply list_elem_of_filter.
  - rewrite tabulate_values, concat_results_of by apply NoDup_first_seen.
    rewrite filter_all; [done|]. apply Forall_forall. intros r Hr.
    apply elem_of_first_seen. by apply list_elem_of_fmap_2.
Qed.

Lemma interesting_seen results (b : string) :
  interesting results b → b ∈ base <$> results.
Proof.
  unfold interesting. rewrite Exists_exists. intros (r & Hr & <- & _).
  by apply list_elem_of_fmap_2.
Qed.

Lemma elem_of_interesting_keys results (b : string) :
  b ∈ filter (interesting results) (first_seen (base <$> results)) ↔
  interesting results b.
Proof.
  rewrite list_elem_of_filter, elem_of_first_seen. split; [by intros [? _]|].
  intros Hb. split; [done | by apply interesting_seen].
Qed.

Lemma count_status_all results (s : string) :
  count_status s results = Py.len results ↔ Forall (λ r, status r = s) results.
Proof.
  unfold count_status, Py.len. split.
  - intros Hlen. apply Forall_forall. intros r Hr.
    destruct (decide (status r = s)) as [|Hne]; [done|].
    pose proof (length_filter_lt (λ r, status r = s) results r Hr Hne). lia.
  - intros Hall. by rewrite filter_all.
Qed.

(** X14. Nothing is interesting exactly when every result is REGISTERED,
    that is when the REGISTERED total is the number of results: the case in
    which [main] writes no CSV file and sends no mail. *)
Theorem nothing_interesting_iff_all_registered results :
  (filter_interesting_groups (group_by_base results) = [] ↔
   ∀ r, r ∈ results → status r = STATUS_REGISTERED) ∧
  (Py.len (filter_interesting_groups (group_by_base results)) > 0 ↔
   count_status STATUS_REGISTERED results ≠ Py.len results).
Proof.
  assert (filter_interesting_groups (group_by_base results) = [] ↔
          ∀ r, r ∈ results → status r = STATUS_REGISTERED) as Hiff.
  { rewrite group_and_filter_tabulate, tabulate_nil. split.
    - intros Hnil r Hr.
      destruct (decide (status r = STATUS_REGISTERED)) as [|Hne]; [done|].
      assert (base r ∈ filter (interesting results)
                         (first_seen (base <$> results))) as Hin.
      { apply elem_of_interesting_keys. apply Exists_exists. by exists r. }
      rewrite Hnil in Hin. by apply elem_of_nil in Hin.
    - intros Hall.
      destruct (filter _ _) as [|b keys] eqn:Hkeys; [done|].
      assert (interesting results b) as Hb.
      { apply elem_of_interesting_keys. rewrite Hkeys. by left. }
      apply Exists_exists in Hb as (r & Hr & _ & Hst). exfalso.
      by apply Hst, Hall. }
  split; [done|].
  rewrite count_status_all, Forall_forall, <- Hiff.
  unfold Py.len. destruct (filter_interesting_groups _); cbn; [|split].
  - split; [lia | by intros []].
  - done.
  - lia.
Qed.

Lemma filter_interesting_groups_filter
    (grouped : list (string * list check_result)) :
  NoDup grouped.*1 →
  filter_interesting_groups grouped =
  filter (λ p, has_non_registered p.2 = true) grouped.
Proof.
  intros Hnodup. unfold filter_interesting_groups.
  by rewrite filter_loop.
Qed.

(** X15. On a dict, [filter_interesting_groups] keeps the groups that have
    a result which is not REGISTERED, each with its own results and in
    the order of the dict, and drops the others; filtering what it
    returns changes nothing. *)
Theorem filter_interesting_groups_idempotent
    (grouped : list (string * list check_result)) :
  NoDup grouped.*1 →
  filter_interesting_groups grouped =
    filter (λ p, has_non_registered p.2 = true) grouped ∧
  filter_interesting_groups grouped `sublist_of` grouped ∧
  filter_interesting_groups (filter_interesting_groups grouped) =
    filter_interesting_groups grouped.
Proof.
  intros Hnodup.
  rewrite (filter_interesting_groups_filter grouped Hnodup).
  split; [done|]. split; [apply sublist_filter|].
  rewrite filter_interesting_groups_filter.
  - rewrite list_filter_filter. apply list_filter_iff. tauto.
  - eapply sublist_NoDup; [done | apply fmap_sublist, sublist_filter].
Qed.

End Groups.

Lemma filter_interesting_groups_idempotent_witness :
  let grouped :=
    [("acme", [CheckResult "acme.com" STATUS_REGISTERED "acme";
               CheckResult "acme.ai" STATUS_AVAILABLE "acme"]);
     ("zeta", [CheckResult "zeta.com" STATUS_REGISTERED "zeta"])] in
  filter_interesting_groups (filter_interesting_groups grouped) =
  filter_interesting_groups grouped.
Proof.
  intros grouped.
  destruct (filter_interesting_groups_idempotent grouped) as (_ & _ & Hidem);
    [|done].
  apply (bool_decide_unpack _). by vm_compute.
Defined.

Section Report.

Context {unicode : Py.StrLower}.

Implicit Types (results : list check_result) (r : check_result).

Lemma csv_rows_concat (groups : list (string * list check_result)) :
  (∀ b rs, (b, rs) ∈ groups → Forall (λ r, base r = b) rs) →
  csv_rows groups = csv_row <$> concat groups.*2.
Proof.
  unfold csv_rows. induction groups as [|[b rs] groups IH]; intros Hbase;
    [done|].
  rewrite bind_cons, IH by (intros b' rs' ?; apply Hbase; by right).
  cbn [fmap list_fmap snd concat]. rewrite fmap_app. f_equal.
  specialize (Hbase b rs ltac:(by left)).
  induction Hbase as [|r rs' <- _ IHrs]; [done|].
  rewrite bind_cons, fmap_cons, IHrs. reflexivity.
Qed.

Lemma interesting_groups_concat results :
  concat (filter_interesting_groups (group_by_base results)).*2 ≡ₚ
  filter (λ r, interesting results (base r)) results.
Proof.
  rewrite group_and_filter_tabulate, tabulate_values.
  rewrite concat_results_of by apply NoDup_filter, NoDup_first_seen.
  erewrite list_filter_iff; [done|].
  intros r. apply elem_of_interesting_keys.
Qed.

(** X16. The rows of results.csv are, rearranged by group, the rows
    [base, domain, status] of the results whose base has some result
    that is not REGISTERED: such a base appears with all its results, the
    REGISTERED ones too, and a base with REGISTERED results only does not
    appear. *)
Theorem csv_rows_spec results :
  csv_rows (filter_interesting_groups (group_by_base results)) ≡ₚ
  csv_row <$> filter (λ r, interesting results (base r)) results.
Proof.
  rewrite csv_rows_concat.
  - by rewrite interesting_groups_concat.
  - intros b rs. rewrite group_and_filter_tabulate.
    intros [_ ->]%elem_of_tabulate. apply Forall_forall.
    by intros r [? _]%list_elem_of_filter.
Qed.

Lemma length_filter_implied {A} (P Q : A → Prop)
    `{∀ x, Decision (P x)} `{∀ x, Decision (Q x)} (l : list A) :
  (∀ x, x ∈ l → P x → Q x) →
  length (filter P (filter Q l)) = length (filter P l).
Proof.
  induction l as [|x l IH]; intros Himp; [done|].
  rewrite !filter_cons.
  specialize (IH (λ y Hy, Himp y (list_elem_of_further _ _ _ Hy))).
  pose proof (Himp x (list_elem_of_here _ _)) as Hx.
  destruct (decide (Q x)), (decide (P x)); try tauto;
    rewrite ?filter_cons, ?decide_True, ?decide_False by done; cbn; lia.
Qed.

(** X17. The totals of AVAILABLE and of POSSIBLE_AVAILABLE that [main]
    prints and mails are counted over all results; they are also the
    numbers of such entries in the interesting groups, which is what
    results.csv and the mail list. *)
Theorem report_totals_match_listing results (s : string) :
  s ≠ STATUS_REGISTERED →
  count_status s results =
  count_status s (concat (filter_interesting_groups (group_by_base results)).*2).
Proof.
  intros Hs. unfold count_status, Py.len. f_equal.
  rewrite interesting_groups_concat, length_filter_implied; [done|].
  intros r Hr Hst. apply Exists_exists. exists r. by rewrite Hst.
Qed.

(** X18. The mail lists the first 30 interesting groups, all of them when
    there are at most 30, and reports the others as [more_count]: listed
    and counted groups together are all the groups, and [more_count] is
    positive exactly when there are more than 30. *)
Theorem mail_groups_cover
    (interesting_groups : list (string * list check_result)) :
  groups_array interesting_groups = take 30 interesting_groups ∧
  Py.len (groups_array interesting_groups) + more_count interesting_groups =
    Py.len interesting_groups ∧
  Py.len (groups_array interesting_groups) ≤ 30 ∧
  (more_count interesting_groups > 0 ↔ Py.len interesting_groups > 30) ∧
  (Py.len interesting_groups ≤ 30 →
   groups_array interesting_groups = interesting_groups ∧
   more_count interesting_groups = 0).
Proof.
  assert (groups_array interesting_groups = take 30 interesting_groups) as ->.
  { unfold groups_array, Py.slice, Py.adjust_index, Py.len. cbn [Z.ltb].
    change (0 <? 0) with false. change (30 <? 0) with false. cbn iota.
    rewrite (Z.min_l 0) by lia. rewrite drop_0.
    destruct (decide (length interesting_groups ≤ 30)%nat).
    - rewrite !take_ge; [done|lia..].
    - f_equal. lia. }
  unfold more_count, Py.len. rewrite length_take.
  destruct (Z.gtb_spec (Z.of_nat (length interesting_groups)) 30).
  - repeat split; try lia.
  - repeat split; try lia. apply take_ge. lia.
Qed.

End Report.

Lemma report_totals_match_listing_witness :
  let results :=
    [ CheckResult "a.com" STATUS_REGISTERED "a";
      CheckResult "b.com" STATUS_REGISTERED "b";
      CheckResult "a.app" STATUS_AVAILABLE "a" ] in
  count_status STATUS_AVAILABLE results =
  count_status STATUS_AVAILABLE
    (concat (filter_interesting_groups (group_by_base results)).*2).
Proof.
  intros results. by apply report_totals_match_listing.
Defined.

Section ResolverEdges.

Context {unicode : Py.StrLower}.

(** A token that is not a string, met before any token matches, ends the
    generator with [AttributeError]. *)
Lemma any_active_non_string (pre post : list json) (t : json) :
  (∀ x, x ∈ pre →
        ∃ s, x = JStr s ∧ ¬ is_substring "active" (Py.lower s) ∧
             ¬ is_substring "ok" (Py.lower s)) →
  (∀ s, t ≠ JStr s) →
  any_active (pre ++ t :: post) = Raise AttributeError.
Proof.
  intros Hpre Ht. induction pre as [|x pre IH]; cbn.
  - destruct t; try done. by destruct (Ht s).
  - destruct (Hpre x) as (s & -> & Hactive & Hok); [by left|]. cbn.
    rewrite <- str_contains_iff in Hactive, Hok.
    apply not_true_is_false in Hactive, Hok. rewrite Hactive, Hok. cbn.
    apply IH. intros y Hy. apply Hpre. by right.
Qed.

(** X19. A status list with a token that is not a string, and no matching
    token before it, makes the registry stage inconclusive, also when the
    response has entities or nameservers: the [AttributeError] of
    [s.lower()] is caught with the network errors, and the DNS lookup
    follows. A token matches when its lowercase form, as [str.lower] gives
    it, has "active" or "ok" in it. *)
Theorem check_rdap_non_string_token (w : world) (domain : string)
    (r : response) (members : list (string * json))
    (pre post : list json) (t : json) :
  requests_get w (rdap_url domain) = Ok r → status_code r = 200 →
  json_body r = Ok (JDict members) →
  Dict.get "status" members = Some (JList (pre ++ t :: post)) →
  (∀ x, x ∈ pre →
        ∃ s, x = JStr s ∧ ¬ is_substring "active" (Py.lower s) ∧
             ¬ is_substring "ok" (Py.lower s)) →
  (∀ s, t ≠ JStr s) →
  (run (check_rdap w domain)).1 = Ok None ∧
  DnsResolve domain ∈ (run (check_domain w domain)).2.
Proof.
  intros Hget Hcode Hbody Hstatus Hpre Ht.
  assert (rdap_verdict (requests_get w (rdap_url domain)) = None) as Hnone.
  { rewrite Hget. unfold rdap_verdict. rewrite Hcode. cbn.
    rewrite (rdap_found_object r members Hbody). unfold status_tokens.
    rewrite Hstatus. by rewrite any_active_non_string. }
  unfold run. rewrite check_rdap_run, check_domain_run, Hnone. cbn.
  split; [done|]. right. by left.
Qed.

Lemma rdap_verdict_available (got : result response) :
  rdap_verdict got = Some STATUS_AVAILABLE ↔
  ∃ r, got = Ok r ∧ status_code r = 404.
Proof.
  unfold rdap_verdict. destruct got as [r|e].
  - destruct (Z.eqb_spec (status_code r) 404) as [H404|H404].
    + split; [|done]. intros _. by exists r.
    + split; [|by intros (r' & [= <-] & ?)].
      destruct (status_code r =? 200); [|done].
      destruct (rdap_found r) as [v|] eqn:Hfound; [|done].
      apply rdap_found_values in Hfound as [-> | ->]; done.
  - split; [done | by intros (r & [=] & _)].
Qed.

Lemma dns_verdict_available (got : result (list string)) :
  dns_verdict got = Some STATUS_AVAILABLE ↔
  got = Ok [] ∨ got = Raise NXDOMAIN ∨ got = Raise NoAnswer.
Proof.
  unfold dns_verdict. destruct got as [[|n ns]|[]]; cbn;
    split; try done; try (intros [|[|]]; done); auto.
Qed.

(** X20. [check_domain] answers AVAILABLE in two cases and no other: the
    registry answers HTTP 404; or the registry stage is inconclusive and
    the resolver either raises NXDOMAIN or NoAnswer or returns an answer
    without NS records. *)
Theorem check_domain_available_iff (w : world) (domain : string) :
  (run (check_domain w domain)).1 =
    Ok {| ds_domain := domain; ds_status := STATUS_AVAILABLE |} ↔
  (∃ r, requests_get w (rdap_url domain) = Ok r ∧ status_code r = 404) ∨
  ((run (check_rdap w domain)).1 = Ok None ∧
   (resolver_resolve w domain = Ok [] ∨
    resolver_resolve w domain = Raise NXDOMAIN ∨
    resolver_resolve w domain = Raise NoAnswer)).
Proof.
  unfold run. rewrite check_rdap_run, check_domain_run.
  rewrite <- rdap_verdict_available, <- dns_verdict_available. cbn [fst].
  destruct (rdap_verdict _) as [s|]; cbn [fst].
  - split.
    + intros [= ->]. by left.
    + intros [[= ->]|[[=] _]]. done.
  - destruct (dns_verdict _) as [s|]; cbn.
    + split.
      * intros [= ->]. by right.
      * intros [[=]|[_ [= ->]]]. done.
    + split; [done|]. intros [[=]|[_ [=]]].
Qed.

End ResolverEdges.

Lemma check_rdap_non_string_token_witness :
  let members := [("status", JList [JStr "client hold"; JNumber "7"]);
                  ("entities", JList [])] in
  let w := {| requests_get := λ _,
                Ok {| status_code := 200; json_body := Ok (JDict members) |};
              resolver_resolve := λ _, Raise NXDOMAIN |} in
  (run (check_rdap w "example.com")).1 = Ok None ∧
  DnsResolve "example.com" ∈ (run (check_domain w "example.com")).2.
Proof.
  intros members w.
  eapply (check_rdap_non_string_token w "example.com" _ members
            [JStr "client hold"] [] (JNumber "7")); try done.
  intros x [->|[]%elem_of_nil]%elem_of_cons. exists "client hold".
  split; [done|]. rewrite <- !str_contains_iff. by vm_compute.
Defined.

Section WholeProgram.

Context {unicode : Py.StrLower}.

Lemma buzzwords_fetched (web : fetched) (name : string) :
  name ∈ get_custom_buzzwords → name ∈ fetch_all_sources web.
Proof.
  intros Hname. unfold fetch_all_sources. cbn zeta. rewrite !elem_of_app.
  by do 6 right.
Qed.

Lemma buzzwords_valid :
  Forall (λ name, is_valid_name (normalize_name name) = true)
         get_custom_buzzwords.
Proof.
  assert (Forall (λ name,
            Py.is_ascii name = true ∧
            is_valid_name (Py.str_take 25
              (re_sub_non_a_z_0_9 (Py.lower_ascii name))) = true)
            get_custom_buzzwords) as Hall
    by (apply (bool_decide_unpack _); by vm_compute).
  eapply Forall_impl; [exact Hall|]. intros name [Hascii Hvalid].
  by rewrite normalize_name_on_ascii.
Qed.

Lemma buzzword_in_corpus (web : fetched) (name : string) :
  name ∈ get_custom_buzzwords →
  normalize_name name ∈ process_all_keywords (fetch_all_sources web).
Proof.
  intros Hname. apply elem_of_process_all_keywords. exists name.
  split; [by apply buzzwords_fetched|].
  apply elem_of_generate_variations; [|by left].
  pose proof buzzwords_valid as Hvalid. rewrite Forall_forall in Hvalid.
  by apply Hvalid.
Qed.

(** What a run of [main] adds to an empty log. *)
Lemma main_log (w : world) (l : list string) (d : Z) :
  (run (main w l d)).2 = [] ∨
  ∃ batch, batch `sublist_of` l ∧ 1 ≤ Py.len batch ≤ 200 ∧
           (run (main w l d)).2 =
           generate_domains batch ≫= λ item, calls w (c_domain item).
Proof.
  unfold run. rewrite main_run.
  destruct (get_todays_batch 200 l d) as [batch|e] eqn:Hbatch; [|by left].
  destruct (Py.len batch =? 0); [by left|]. right. exists batch.
  apply get_todays_batch_ok_bounds in Hbatch as [Hlen Hsub]; [|lia]. done.
Qed.


(** X21. The buzzwords are part of every fetch, so the corpus always has
    their cleaned names and is never empty, whatever the six fetches
    returned: [get_todays_batch] then returns a batch that is not empty on
    any day, and [main] goes through to its summary. *)
Theorem corpus_never_empty (web : fetched) :
  let corpus := process_all_keywords (fetch_all_sources web) in
  (∀ name, name ∈ get_custom_buzzwords → normalize_name name ∈ corpus) ∧
  corpus ≠ [] ∧
  (∀ d, ∃ batch, get_todays_batch 200 corpus d = Ok batch ∧ batch ≠ []) ∧
  (∀ w d log, ∃ s log', main w corpus d log = (Ok (Checked s), log')).
Proof.
  intros corpus.
  assert (corpus ≠ []) as Hne.
  { intros Hnil.
    pose proof (buzzword_in_corpus web "Grok" ltac:(by do 2 right; left))
      as Hin.
    fold corpus in Hin. rewrite Hnil in Hin. by apply elem_of_nil in Hin. }
  assert (∀ d, ∃ batch, get_todays_batch 200 corpus d = Ok batch ∧
                        1 ≤ Py.len batch) as Hbatch.
  { intros d.
    destruct (get_todays_batch_unfold corpus 200 d Hne ltac:(lia))
      as (Hk & Hs & He & Hes & Heq).
    eexists. split; [exact Heq|]. rewrite segment_length; lia. }
  split; [apply buzzword_in_corpus|]. split; [done|]. split.
  - intros d. destruct (Hbatch d) as (batch & Heq & Hlen).
    exists batch. split; [done|]. intros ->. unfold Py.len in Hlen.
    cbn in Hlen. lia.
  - intros w d log. destruct (Hbatch d) as (batch & Heq & Hlen).
    rewrite main_run, Heq.
    destruct (Z.eqb_spec (Py.len batch) 0); [lia|]. by eexists _, _.
Qed.

(** X22. Every RDAP request of a run over the corpus of
    [process_all_keywords] is for a name of 3 to 25 characters of [a-z0-9]
    followed by one of the four TLDs, and no URL is requested twice. *)
Theorem main_queries_safe_names (w : world) (all_names : list string) (d : Z) :
  let log := (run (main w (process_all_keywords all_names) d)).2 in
  (∀ url, url ∈ http_gets log →
          ∃ k tld, domain_safe k ∧ tld ∈ [".com"; ".app"; ".ai"; ".so"] ∧
                   url = "https://rdap.org/domain/" +:+ k +:+ tld) ∧
  NoDup (http_gets log).
Proof.
  cbn zeta.
  destruct (main_log w (process_all_keywords all_names) d)
    as [->|(batch & Hsub & _ & ->)].
  { split; [by intros ? ?%elem_of_nil | constructor]. }
  rewrite all_calls_http_gets.
  assert (Forall domain_safe batch) as Hsafe.
  { apply Forall_forall. intros k Hk.
    eapply elem_of_sublist, elem_of_process_all_keywords in Hk
      as (name & _ & Hk); [|done].
    by eapply generate_variations_domain_safe. }
  split.
  - intros url (c & -> & Hc)%list_elem_of_fmap.
    apply elem_of_generate_domains in Hc as (k & tld & Hk & Htld & ->).
    exists k, tld. rewrite Forall_forall in Hsafe. auto.
  - rewrite (list_fmap_compose c_domain rdap_url).
    apply NoDup_fmap_2_strong.
    + unfold rdap_url. intros d1 d2 _ _ Heq. by simplify_eq.
    + apply generate_domains_NoDup; [|done].
      eapply sublist_NoDup; [|done].
      unfold process_all_keywords, sorted. rewrite merge_sort_Permutation.
      apply NoDup_elements.
Qed.

End WholeProgram.



Section Canonical.

Context {unicode : Py.StrLower}.

Lemma strictly_sorted_NoDup (l : list string) :
  StronglySorted str_lt l → NoDup l.
Proof.
  induction 1 as [|a l _ IH Hhd]; [constructor|].
  apply NoDup_cons. split; [|done]. intros Ha.
  rewrite Forall_forall in Hhd. by eapply str_lt_irrefl, Hhd.
Qed.

Lemma strictly_sorted_unique (l1 l2 : list string) :
  StronglySorted str_lt l1 → StronglySorted str_lt l2 →
  (∀ x, x ∈ l1 ↔ x ∈ l2) → l1 = l2.
Proof.
  intros Hl1 Hl2 Hmem. apply (StronglySorted_unique_strong str_lt); [|done..|].
  - intros x1 x2 _ _ H12 H21. destruct (str_lt_irrefl x1).
    by eapply str_lt_trans.
  - by apply NoDup_Permutation; [apply strictly_sorted_NoDup..|].
Qed.

Lemma process_all_keywords_sorted (all_names : list string) :
  StronglySorted str_lt (process_all_keywords all_names).
Proof. apply sorted_NoDup_strict, NoDup_elements. Qed.

(** X23. The corpus is the one strictly ascending list that holds exactly
    the variations of the fetched names. So it does not depend on the
    order in which the names were fetched, on how often a name was
    fetched, or on the order in which a set is walked: two fetches with
    the same names give the same corpus, keyword by keyword, and with it
    the same batches. *)
Theorem process_all_keywords_canonical (all_names : list string) :
  (∀ l, StronglySorted str_lt l →
        (∀ x, x ∈ l ↔
              ∃ name, name ∈ all_names ∧ x ∈ generate_variations name) →
        l = process_all_keywords all_names) ∧
  (∀ all_names',
     (∀ name, name ∈ all_names' ↔ name ∈ all_names) →
     process_all_keywords all_names' = process_all_keywords all_names).
Proof.
  split.
  - intros l Hsorted Hmem.
    apply strictly_sorted_unique; [done | apply process_all_keywords_sorted|].
    intros x. by rewrite Hmem, elem_of_process_all_keywords.
  - intros all_names' Hsame.
    apply strictly_sorted_unique; [apply process_all_keywords_sorted..|].
    intros x. rewrite !elem_of_process_all_keywords.
    split; intros (name & Hname & Hx); exists name; split; try done;
      by apply Hsame.
Qed.

End Canonical.

Lemma process_all_keywords_canonical_witness :
  process_all_keywords ["Zeta"; "Acme"; "Zeta"] =
  process_all_keywords ["Acme"; "Zeta"].
Proof.
  destruct (process_all_keywords_canonical ["Acme"; "Zeta"]) as [_ Hsame].
  apply Hsame. intros name. rewrite !elem_of_cons, elem_of_nil. tauto.
Defined.

Section DeadExit.

Context {unicode : Py.StrLower}.

(** X24. [main] never leaves through its "No keywords to process" exit:
    a batch that [get_todays_batch] returns has at least one keyword, and
    on the empty corpus [get_todays_batch] raises before the test is
    reached. *)
Theorem main_no_keywords_exit_unreachable (w : world)
    (all_keywords : list string) (d : Z) (log : list event) :
  (main w all_keywords d log).1 ≠ Ok NoKeywordsToProcess ∧
  ∀ batch, get_todays_batch 200 all_keywords d = Ok batch → batch ≠ [].
Proof.
  assert (∀ batch, get_todays_batch 200 all_keywords d = Ok batch →
                   1 ≤ Py.len batch) as Hbatch.
  { intros batch Heq.
    by apply get_todays_batch_ok_bounds in Heq as [[? _] _]. }
  split.
  - rewrite main_run.
    destruct (get_todays_batch 200 all_keywords d) as [batch|e]; [|done].
    specialize (Hbatch batch eq_refl).
    by destruct (Z.eqb_spec (Py.len batch) 0); [lia|].
  - intros batch Heq%Hbatch ->. unfold Py.len in Heq. cbn in Heq. lia.
Qed.

End DeadExit.
